(** * eino-ai-agent: sessions, tool-result formatting and history compaction

    A shallow embedding of the Go sources
      - [internal/summarization] (the history compactor),
      - [internal/agent/agent.go] (session registry, tool-result formatting),
      - [internal/memory] (the persistence stores),
    together with the properties the specification states about them.

    Conventions.  A Go [*schema.Message] is an [option Message] ([None] is the
    nil pointer); a Go [string] is a sequence of bytes, here [string]; [int64]
    values are integers with the wrap-around of the addition written out;
    Go maps are [gmap]s and the [callIDs] set is a [gset]. *)

From Stdlib Require Import ZArith Lia.
From stdpp Require Import base option list strings gmap.

Open Scope string_scope.
Open Scope list_scope.
Open Scope Z_scope.

(** ** Errors and results *)

(** An [error] value.  [wrapError p e] is [fmt.Errorf(p + ": %w", e)];
    [runtimePanic] is a Go run-time panic (index out of range) and
    [outOfFuel] the exhaustion of the bound of a loop of the model: both are
    shown not to happen on the runs the properties are about. *)
Inductive error : Type :=
  | errorString (msg : string)
  | wrapError (prefix : string) (cause : error)
  | tokenCountMismatch (msgNum tokenCountNum : nat)
  | runtimePanic
  | outOfFuel.

Inductive result (A : Type) : Type :=
  | Ok (a : A)
  | Err (e : error).
Arguments Ok {A} a.
Arguments Err {A} e.

(** [result] is an error monad; stdpp's [x ← r; k] notation sequences it. *)
Global Instance result_ret : MRet result := λ A a, Ok a.
Global Instance result_bind : MBind result := λ A B f r,
  match r with
  | Ok a => f a
  | Err e => Err e
  end.

(** [xs[i]] of Go: a panic when [i] is out of range. *)
Definition index {A} (xs : list A) (i : nat) : result A :=
  match xs !! i with
  | Some x => Ok x
  | None => Err runtimePanic
  end.

(** ** 64-bit signed integers *)

Module Int64.

Definition min_int : Z := - 2 ^ 63.
Definition max_int : Z := 2 ^ 63 - 1.

Definition in_range (z : Z) : Prop := min_int ≤ z ≤ max_int.

(** Two's complement wrap-around of an integer to 64 bits. *)
Definition wrap (z : Z) : Z := (z + 2 ^ 63) mod 2 ^ 64 - 2 ^ 63.

(** [a + b] on [int64]. *)
Definition add (a b : Z) : Z := wrap (a + b).

End Int64.

(** ** The message model (package [schema] of eino, as this code uses it) *)

Module Schema.

(** [type RoleType string] with its four constants: a role is any string,
    the empty one included. *)
Abbreviation RoleType := string.
Definition Assistant : RoleType := "assistant".
Definition User : RoleType := "user".
Definition System : RoleType := "system".
Definition Tool : RoleType := "tool".

(** [string(role)] *)
Definition roleString (r : RoleType) : string := r.

Record FunctionCall : Type := mkFunctionCall {
  Name : string;
  Arguments : string
}.

Record ToolCall : Type := mkToolCall {
  ID : string;
  Function : FunctionCall
}.

(** The dynamic values of [Extra map[string]any]; this code only tests the
    presence of a key. *)
Inductive any : Type :=
  | anyBool (b : bool)
  | anyString (s : string)
  | anyInt (z : Z).

Record Message : Type := mkMessage {
  Role : RoleType;
  Content : string;
  ToolCalls : list ToolCall;
  ToolCallID : string;
  Extra : gmap string any
}.

(** [*schema.Message]: [None] is nil. *)
Abbreviation MessagePtr := (option Message).

(** [schema.ToolMessage(content, toolCallID)] *)
Definition ToolMessage (content toolCallID : string) : Message :=
  {| Role := Tool; Content := content; ToolCalls := [];
     ToolCallID := toolCallID; Extra := ∅ |}.

(** [schema.UserMessage(content)] *)
Definition UserMessage (content : string) : Message :=
  {| Role := User; Content := content; ToolCalls := [];
     ToolCallID := EmptyString; Extra := ∅ |}.

(** [schema.SystemMessage(content)] *)
Definition SystemMessage (content : string) : Message :=
  {| Role := System; Content := content; ToolCalls := [];
     ToolCallID := EmptyString; Extra := ∅ |}.

End Schema.

(** ** Package [summarization]: the history compactor *)

Module Summarization.
Import Schema.

(** [type TokenCounter func(ctx, msgs) ([]int64, error)] *)
Definition TokenCounter : Type := list MessagePtr → result (list Z).

(** The compiled summarizer chain, [Invoke(ctx, {older_messages: text})]. *)
Definition Summarizer : Type := string → result MessagePtr.

(** [model.ToolCallingChatModel], as far as the chain uses it. *)
Definition ChatModel : Type := list Message → result MessagePtr.

Record Config : Type := mkConfig {
  MaxTokensBeforeSummary : Z;
  MaxTokensForRecentMessages : Z;
  Counter : option TokenCounter;
  Model : option ChatModel;
  SystemPrompt : string
}.

Definition DefaultMaxTokensBeforeSummary : Z := 2000.
Definition DefaultMaxTokensForRecentMessages : Z := 500.

Definition summaryMessageFlag : string := "_summary_message".

Record Middleware : Type := mkMiddleware {
  counter : TokenCounter;
  maxBefore : Z;
  maxRecent : Z;
  summarizer : Summarizer
}.

Record messageBlock : Type := mkBlock {
  msgs : list MessagePtr;
  tokens : Z
}.

(** The zero value of [messageBlock]. *)
Definition zeroBlock : messageBlock := {| msgs := []; tokens := 0 |}.

(** [b.msgs = append(b.msgs, msg); b.tokens += t] *)
Definition appendMsg (b : messageBlock) (msg : Message) (t : Z) : messageBlock :=
  {| msgs := msgs b ++ [Some msg]; tokens := Int64.add (tokens b) t |}.

(** The double quote character, for the string constants that contain it. *)
Definition dq : string := String (Ascii.ascii_of_nat 34) EmptyString.

Definition defaultSummaryPrompt : string :=
  "You are a conversation summarizer. Your task is to create a concise summary of the conversation history.

Guidelines:
1. Preserve key information, decisions, and context
2. Maintain the chronological flow of the conversation
3. Include important facts, user preferences, and action items
4. Keep the summary concise but informative
5. Use clear, structured format

Output format:
- Start with " +:+ dq +:+ "Summary of previous conversation:" +:+ dq +:+ "
- Use bullet points for key points
- Include any pending questions or action items".

(** [len(s)] of a Go string, in bytes. *)
Definition len (s : string) : Z := Z.of_nat (String.length s).

(** The estimate of about 4 characters a token; [int64(length / 4)] is
    [length / 4], a length being far below the range of [int64]. *)
Definition defaultCounterToken (msgs : list MessagePtr) : result (list Z) :=
  Ok ((λ m : MessagePtr,
         match m with
         | None => 0
         | Some m =>
             let length' :=
               len (roleString (Role m)) + len (Content m) +
               (if decide (Role m = Assistant ∧ (0 < length (ToolCalls m))%nat)
                then foldl (λ acc tc,
                        acc + len (Name (Function tc)) + len (Arguments (Function tc)))
                      0 (ToolCalls m)
                else 0) in
             let t := length' `quot` 4 in
             if decide (t = 0 ∧ length' > 0) then 1 else t
         end) <$> msgs).

Section New.

(** [compose.NewChain().AppendChatTemplate(tpl).AppendChatModel(model).Compile]:
    the chain library is outside this repository; the system prompt and the
    model are what the repository hands to it. *)
Variable compile : string → ChatModel → result Summarizer.

Definition New (cfg : option Config) : result Middleware :=
  match cfg with
  | None => Err (errorString "config is nil")
  | Some cfg =>
      match Model cfg with
      | None => Err (errorString "model is required")
      | Some model =>
          let systemPrompt :=
            if decide (SystemPrompt cfg = EmptyString) then defaultSummaryPrompt
            else SystemPrompt cfg in
          let maxBefore :=
            if decide (MaxTokensBeforeSummary cfg > 0) then MaxTokensBeforeSummary cfg
            else DefaultMaxTokensBeforeSummary in
          let maxRecent :=
            if decide (MaxTokensForRecentMessages cfg > 0) then MaxTokensForRecentMessages cfg
            else DefaultMaxTokensForRecentMessages in
          match compile systemPrompt model with
          | Err err => Err (wrapError "compile summarizer failed" err)
          | Ok summarizer =>
              Ok {| counter := default defaultCounterToken (Counter cfg);
                    maxBefore := maxBefore;
                    maxRecent := maxRecent;
                    summarizer := summarizer |}
          end
      end
  end.

End New.

(** *** [splitMessages] *)

(** The four named results of [splitMessages]. *)
Record blocks : Type := mkBlocks {
  systemBlock : messageBlock;
  userBlock : messageBlock;
  summaryBlock : messageBlock;
  toolBlocks : list messageBlock
}.

(** "System messages": the [if idx < len(messages)] at [idx = 0]; returns the
    block and the new [idx]. *)
Definition splitSystem (messages : list MessagePtr) (msgsToken : list Z)
  : result (messageBlock * nat) :=
  match messages !! 0%nat with
  | Some (Some msg) =>
      if decide (Role msg = System) then
        t ← index msgsToken 0;
        Ok (appendMsg zeroBlock msg t, 1%nat)
      else Ok (zeroBlock, 0%nat)
  | _ => Ok (zeroBlock, 0%nat)
  end.

(** "User messages (initial)": [for idx < len(messages)], one iteration per
    unit of [fuel]; [messages !! idx = None] is [idx >= len(messages)]. *)
Fixpoint splitUser (fuel : nat) (messages : list MessagePtr) (msgsToken : list Z)
  (idx : nat) (userBlock : messageBlock) : result (messageBlock * nat) :=
  match messages !! idx with
  | None => Ok (userBlock, idx)
  | Some msg =>
      match fuel with
      | O => Err outOfFuel
      | S fuel =>
          match msg with
          | None => splitUser fuel messages msgsToken (S idx) userBlock
          | Some msg =>
              if decide (Role msg ≠ User) then Ok (userBlock, idx)
              else
                t ← index msgsToken idx;
                splitUser fuel messages msgsToken (S idx) (appendMsg userBlock msg t)
          end
      end
  end.

(** "Previous summary message". *)
Definition splitSummary (messages : list MessagePtr) (msgsToken : list Z) (idx : nat)
  : result (messageBlock * nat) :=
  match messages !! idx with
  | Some (Some msg) =>
      if decide (Role msg = Assistant) then
        match Extra msg !! summaryMessageFlag with
        | Some _ =>
            t ← index msgsToken idx;
            Ok (appendMsg zeroBlock msg t, S idx)
        | None => Ok (zeroBlock, idx)
        end
      else Ok (zeroBlock, idx)
  | _ => Ok (zeroBlock, idx)
  end.

(** "Collect subsequent tool messages": [for j < len(messages)]; returns the
    block and the index [j] at which the loop stopped. *)
Fixpoint collectTools (fuel : nat) (messages : list MessagePtr) (msgsToken : list Z)
  (callIDs : gset string) (j : nat) (b : messageBlock) : result (messageBlock * nat) :=
  match messages !! j with
  | None => Ok (b, j)
  | Some nm =>
      match fuel with
      | O => Err outOfFuel
      | S fuel =>
          match nm with
          | None => Ok (b, j)
          | Some nm =>
              if decide (Role nm ≠ Tool) then Ok (b, j)
              else if decide (ToolCallID nm = EmptyString) then
                t ← index msgsToken j;
                collectTools fuel messages msgsToken callIDs (S j) (appendMsg b nm t)
              else if decide (ToolCallID nm ∈ callIDs) then
                t ← index msgsToken j;
                collectTools fuel messages msgsToken callIDs (S j) (appendMsg b nm t)
              else Ok (b, j)
          end
      end
  end.

(** [callIDs[tc.ID] = struct{}{}] for every call of the message. *)
Definition callIDsOf (msg : Message) : gset string :=
  list_to_set (ID <$> ToolCalls msg).

(** "Tool blocks (assistant + tool messages)": [for i := idx; i < len(messages); i++]. *)
Fixpoint splitTools (fuel : nat) (messages : list MessagePtr) (msgsToken : list Z)
  (i : nat) (toolBlocks : list messageBlock) : result (list messageBlock) :=
  match messages !! i with
  | None => Ok toolBlocks
  | Some msg =>
      match fuel with
      | O => Err outOfFuel
      | S fuel =>
          match msg with
          | None => splitTools fuel messages msgsToken (S i) toolBlocks
          | Some msg =>
              if decide (Role msg = Assistant ∧ (0 < length (ToolCalls msg))%nat) then
                t ← index msgsToken i;
                let b := {| msgs := [Some msg]; tokens := t |} in
                '(b, j) ← collectTools (length messages) messages msgsToken
                            (callIDsOf msg) (S i) b;
                (* i = j - 1; continue; then i++ *)
                splitTools fuel messages msgsToken (S (j - 1)) (toolBlocks ++ [b])
              else
                t ← index msgsToken i;
                splitTools fuel messages msgsToken (S i)
                  (toolBlocks ++ [{| msgs := [Some msg]; tokens := t |}])
          end
      end
  end.

Definition splitMessages (messages : list MessagePtr) (msgsToken : list Z) : result blocks :=
  '(systemBlock, idx) ← splitSystem messages msgsToken;
  '(userBlock, idx) ← splitUser (length messages) messages msgsToken idx zeroBlock;
  '(summaryBlock, idx) ← splitSummary messages msgsToken idx;
  toolBlocks ← splitTools (length messages) messages msgsToken idx [];
  Ok {| systemBlock := systemBlock; userBlock := userBlock;
        summaryBlock := summaryBlock; toolBlocks := toolBlocks |}.

(** *** Rendering of the older blocks *)

Definition renderToolCall (tc : ToolCall) : string :=
  (if decide (Name (Function tc) ≠ EmptyString)
   then "tool_call: " +:+ Name (Function tc) +:+ "
"
   else EmptyString) +:+
  (if decide (Arguments (Function tc) ≠ EmptyString)
   then "args: " +:+ Arguments (Function tc) +:+ "
"
   else EmptyString).

Definition renderMsg (m : MessagePtr) : string :=
  match m with
  | None => EmptyString
  | Some m =>
      "[" +:+ roleString (Role m) +:+ "]
" +:+
      (if decide (Content m ≠ EmptyString) then Content m +:+ "
" else EmptyString) +:+
      (if decide (Role m = Assistant ∧ (0 < length (ToolCalls m))%nat)
       then foldr (λ tc acc, renderToolCall tc +:+ acc) EmptyString (ToolCalls m)
       else EmptyString)
  end.

Definition joinBlocks (blocks : list messageBlock) : string :=
  foldr (λ b acc,
      foldr (λ m acc, renderMsg m +:+ "
" +:+ acc) acc (msgs b))
    EmptyString blocks.

(** *** The budget split of [ProcessMessages] *)

(** The three variables of the loop. *)
Record split : Type := mkSplit {
  recentBlocks : list messageBlock;
  olderBlocks : list messageBlock;
  recentTokens : Z
}.

Definition split0 : split :=
  {| recentBlocks := []; olderBlocks := []; recentTokens := 0 |}.

(** The body of the loop at block [b]. *)
Definition budgetBody (maxRecent : Z) (b : messageBlock) (st : split) : split :=
  if decide (Int64.add (recentTokens st) (tokens b) > maxRecent) then
    {| recentBlocks := recentBlocks st;
       olderBlocks := [b] ++ olderBlocks st;
       recentTokens := recentTokens st |}
  else
    {| recentBlocks := [b] ++ recentBlocks st;
       olderBlocks := olderBlocks st;
       recentTokens := Int64.add (recentTokens st) (tokens b) |}.

(** [for i := len(toolBlocks) - 1; i >= 0; i--], with [n = i + 1] iterations
    left. *)
Fixpoint budgetLoop (maxRecent : Z) (toolBlocks : list messageBlock) (n : nat)
  (st : split) : result split :=
  match n with
  | O => Ok st
  | S i =>
      b ← index toolBlocks i;
      budgetLoop maxRecent toolBlocks i (budgetBody maxRecent b st)
  end.

Definition budgetSplit (maxRecent : Z) (toolBlocks : list messageBlock) : result split :=
  budgetLoop maxRecent toolBlocks (length toolBlocks) split0.

(** *** [ProcessMessages] *)

(** The calls [ProcessMessages] makes to its two capabilities, in order. *)
Inductive Event : Type :=
  | CounterCall (msgs : list MessagePtr)
  | SummarizerInvoke (older_messages : string).

(** [for _, t := range msgsToken { total += t }] *)
Definition sumTokens (msgsToken : list Z) : Z :=
  foldl Int64.add 0 msgsToken.

(** Returns the calls made and what the function returns. *)
Definition ProcessMessages (m : Middleware) (messages : list MessagePtr)
  : list Event * result (list MessagePtr) :=
  if decide (length messages = 0%nat) then ([], Ok messages)
  else
    match counter m messages with
    | Err err => ([CounterCall messages], Err (wrapError "count token failed" err))
    | Ok msgsToken =>
        if decide (length messages ≠ length msgsToken) then
          ([CounterCall messages],
           Err (tokenCountMismatch (length messages) (length msgsToken)))
        else
          let total := sumTokens msgsToken in
          if decide (total ≤ maxBefore m) then ([CounterCall messages], Ok messages)
          else
            match
              (bs ← splitMessages messages msgsToken;
               budgetSplit (maxRecent m) (toolBlocks bs))
            with
            | Err e => ([CounterCall messages], Err e)
            | Ok st =>
                let olderText := joinBlocks (olderBlocks st) in
                match summarizer m olderText with
                | Err err =>
                    ([CounterCall messages; SummarizerInvoke olderText],
                     Err (wrapError "summarize failed" err))
                | Ok _ =>
                    ([CounterCall messages; SummarizerInvoke olderText], Ok messages)
                end
            end
    end.

End Summarization.

(** ** Package [memory]: the persistence stores *)

Module Memory.
Import Schema.

(** [type Store interface { Write; Read }], for a store whose state is an
    [St].  Both methods return a Go [error], [None] for nil; [Read] returns a
    slice that may be nil ([None]). *)
Class Store (St : Type) : Type := {
  Write : St → string → list MessagePtr → St * option error;
  Read : St → string → option (list MessagePtr) * option error
}.

(** [make([]*schema.Message, n)] and [copy(dst, src)], which returns the new
    contents of [dst]. *)
Definition make (n : nat) : list MessagePtr := replicate n None.
Definition copy (dst src : list MessagePtr) : list MessagePtr :=
  take (length dst) src ++ drop (length src) dst.

Record InMemoryStore : Type := mkInMemoryStore {
  data : gmap string (list MessagePtr)
}.

Definition NewInMemoryStore : InMemoryStore := {| data := ∅ |}.

Definition InMemoryStore_Write (s : InMemoryStore) (sessionID : string)
  (msgs : list MessagePtr) : InMemoryStore * option error :=
  let msgsCopy := copy (make (length msgs)) msgs in
  ({| data := <[sessionID := msgsCopy]> (data s) |}, None).

Definition InMemoryStore_Read (s : InMemoryStore) (sessionID : string)
  : option (list MessagePtr) * option error :=
  match data s !! sessionID with
  | None => (None, None)
  | Some msgs =>
      let msgsCopy := copy (make (length msgs)) msgs in
      (Some msgsCopy, None)
  end.

Global Instance InMemoryStore_Store : Store InMemoryStore :=
  {| Write := InMemoryStore_Write; Read := InMemoryStore_Read |}.

(** *** The gob codec and the Redis store *)

(** What [cli.Get(ctx, key).Bytes()] returns. *)
Inductive redisReply : Type :=
  | redisBytes (b : list Byte.byte)
  | redisNil
  | redisErr (err : error).

(** The commands of go-redis the store uses, on a server in state [R]. *)
Class RedisClient (R : Type) : Type := {
  Set_ : R → string → list Byte.byte → R * option error;
  Get : R → string → redisReply
}.

Record RedisStore (R : Type) : Type := mkRedisStore {
  cli : R;
  prefix : string
}.
Arguments cli {R} _.
Arguments prefix {R} _.
Arguments mkRedisStore {R} _ _.

Definition NewRedisStore {R} (cli : R) (prefix : string) : RedisStore R :=
  {| cli := cli;
     prefix := if decide (prefix = EmptyString) then "eino:session:" else prefix |}.

Section Gob.

(** [encoding/gob], outside this repository: an encoder of the value
    [[]*schema.Message], and a decoder into a slice variable that starts nil
    and may be left nil ([None]). *)
Variable gobEncode : list MessagePtr → result (list Byte.byte).
Variable gobDecode : list Byte.byte → result (option (list MessagePtr)).

Definition EncodeMessages (msgs : list MessagePtr) : result (list Byte.byte) :=
  match gobEncode msgs with
  | Err err => Err err
  | Ok buf => Ok buf
  end.

Definition DecodeMessages (data : list Byte.byte)
  : result (option (list MessagePtr)) :=
  match gobDecode data with
  | Err err => Err err
  | Ok msgs => Ok msgs
  end.

Definition RedisStore_Write `{RedisClient R} (s : RedisStore R) (sessionID : string)
  (msgs : list MessagePtr) : RedisStore R * option error :=
  let key := prefix s +:+ sessionID in
  match EncodeMessages msgs with
  | Err err => (s, Some err)
  | Ok b =>
      match Set_ (cli s) key b with
      | (cli', Some err) => ({| cli := cli'; prefix := prefix s |}, Some err)
      | (cli', None) => ({| cli := cli'; prefix := prefix s |}, None)
      end
  end.

Definition RedisStore_Read `{RedisClient R} (s : RedisStore R) (sessionID : string)
  : option (list MessagePtr) * option error :=
  let key := prefix s +:+ sessionID in
  match Get (cli s) key with
  | redisNil => (None, None)
  | redisErr err => (None, Some err)
  | redisBytes res =>
      match DecodeMessages res with
      | Err err => (None, Some err)
      | Ok msgs => (msgs, None)
      end
  end.

Definition RedisStore_Store `{RedisClient R} : Store (RedisStore R) :=
  {| Write := RedisStore_Write; Read := RedisStore_Read |}.

End Gob.


End Memory.

(** ** Package [agent]: the session registry and the tool-result formatting *)

Module Agent.
Import Schema Memory.

Record Session : Type := mkSession {
  ID : string;
  Messages : list MessagePtr
}.

(** An agent: [sessions] maps a session id to a [*Session], the address in
    [heap] of a session object (allocation appends to the heap); the store
    may be nil. *)
Record Agent (St : Type) : Type := mkAgent {
  sessions : gmap string nat;
  heap : list Session;
  memoryStore : option St
}.
Arguments sessions {St} _.
Arguments heap {St} _.
Arguments memoryStore {St} _.
Arguments mkAgent {St} _ _ _.

(** What the registry does outside the agent: reads of the store and log
    lines. *)
Inductive Event : Type :=
  | StoreRead (sessionID : string)
  | Warnf (sessionID : string) (err : error)
  | Debugf (sessionID : string) (n : nat).

Definition GetOrCreateSession `{Store St} (a : Agent St) (sessionID : string)
  : Agent St * nat * list Event :=
  match sessions a !! sessionID with
  | Some session => (a, session, [])
  | None =>
      let '(msgs, evs) :=
        match memoryStore a with
        | Some store =>
            let '(msgs, err) := Read store sessionID in
            (msgs,
             [StoreRead sessionID] ++
             match err with Some err => [Warnf sessionID err] | None => [] end ++
             match msgs with Some msgs => [Debugf sessionID (length msgs)] | None => [] end)
        | None => (None, [])
        end in
      let msgs := match msgs with None => make 0 | Some msgs => msgs end in
      let session := length (heap a) in
      ({| sessions := <[sessionID := session]> (sessions a);
          heap := heap a ++ [{| ID := sessionID; Messages := msgs |}];
          memoryStore := memoryStore a |},
       session, evs)
  end.

Definition persistSession `{Store St} (a : Agent St) (sessionID : string)
  (msgs : list MessagePtr) : Agent St :=
  match memoryStore a with
  | None => a
  | Some store =>
      {| sessions := sessions a; heap := heap a;
         memoryStore := Some (Write store sessionID msgs).1 |}
  end.

Definition GetSessionHistory {St} (a : Agent St) (sessionID : string)
  : option (list MessagePtr) * bool :=
  match sessions a !! sessionID with
  | None => (None, false)
  | Some session =>
      match heap a !! session with
      | None => (None, false)
      | Some s => (Some (copy (make (length (Messages s))) (Messages s)), true)
      end
  end.

Definition ClearSession {St} (a : Agent St) (sessionID : string) : Agent St :=
  {| sessions := delete sessionID (sessions a); heap := heap a;
     memoryStore := memoryStore a |}.

(** [session.Messages = append(session.Messages, message)] on the session
    object the id maps to; nothing when the id maps to none. *)
Definition AppendAssistantMessage {St} (a : Agent St) (sessionID : string)
  (message : MessagePtr) : Agent St :=
  match sessions a !! sessionID with
  | None => a
  | Some session =>
      {| sessions := sessions a;
         heap := alter (λ s, {| ID := ID s; Messages := Messages s ++ [message] |})
                   session (heap a);
         memoryStore := memoryStore a |}
  end.

(** *** [strings.TrimSpace] and [strings.HasPrefix] *)

Definition bytes (l : list N) : string :=
  foldr (λ n s, String (Ascii.ascii_of_N n) s) EmptyString l.

(** The UTF-8 encodings of the code points that are white space for
    [unicode.IsSpace]: tab to carriage return, space, U+0085, U+00A0, U+1680,
    U+2000 to U+200A, U+2028, U+2029, U+202F, U+205F and U+3000. *)
Definition spaceRunes : list string :=
  bytes <$>
  [[9]; [10]; [11]; [12]; [13]; [32];
   [0xC2; 0x85]; [0xC2; 0xA0];
   [0xE1; 0x9A; 0x80];
   [0xE2; 0x80; 0x80]; [0xE2; 0x80; 0x81]; [0xE2; 0x80; 0x82]; [0xE2; 0x80; 0x83];
   [0xE2; 0x80; 0x84]; [0xE2; 0x80; 0x85]; [0xE2; 0x80; 0x86]; [0xE2; 0x80; 0x87];
   [0xE2; 0x80; 0x88]; [0xE2; 0x80; 0x89]; [0xE2; 0x80; 0x8A];
   [0xE2; 0x80; 0xA8]; [0xE2; 0x80; 0xA9]; [0xE2; 0x80; 0xAF];
   [0xE2; 0x81; 0x9F];
   [0xE3; 0x80; 0x80]]%N.

(** [s] without its prefix [p], when [p] is a prefix of [s]. *)
Fixpoint stripPrefix (p s : string) : option string :=
  match p with
  | EmptyString => Some s
  | String a p' =>
      match s with
      | String b s' => if decide (a = b) then stripPrefix p' s' else None
      | EmptyString => None
      end
  end.

(** [s] without its first rune, when that rune is one of [runes]. *)
Definition stripRune (runes : list string) (s : string) : option string :=
  foldr (λ r acc, match stripPrefix r s with Some rest => Some rest | None => acc end)
    None runes.

Fixpoint trimLeft (runes : list string) (fuel : nat) (s : string) : string :=
  match fuel with
  | O => s
  | S fuel =>
      match stripRune runes s with
      | Some rest => trimLeft runes fuel rest
      | None => s
      end
  end.

(** [strings.TrimSpace]: the leading white space is removed rune by rune,
    then the trailing white space, read from the end. *)
Definition TrimSpace (s : string) : string :=
  let s := trimLeft spaceRunes (String.length s) s in
  String.rev (trimLeft (String.rev <$> spaceRunes) (String.length s) (String.rev s)).

(** [strings.HasPrefix(s, prefix)] *)
Definition HasPrefix (s prefix : string) : bool := String.prefix prefix s.

(** *** Tool-result formatting *)

(** The double quote character. *)
Definition dq : string := String (Ascii.ascii_of_nat 34) EmptyString.

(** An element of the [Content] field of the [mcpResult] struct. *)
Record contentItem : Type := mkContentItem {
  Type_ : string;
  Text : string
}.

Section ToolResult.

(** [json.Unmarshal([]byte(content), &mcpResult)] of [encoding/json], outside
    this repository: the [Content] field it fills, or its error. *)
Variable jsonUnmarshal : string → result (list contentItem).

Definition formatToolResult (content : string) : string :=
  let content := TrimSpace content in
  if negb (HasPrefix content ("{" +:+ dq +:+ "content" +:+ dq)) then content
  else
    match jsonUnmarshal content with
    | Err _ => content
    | Ok items =>
        let formatted :=
          foldl (λ result item,
                   if decide (Type_ item = "text" ∧ Text item ≠ EmptyString)
                   then result +:+ Text item else result)
            EmptyString items in
        if decide (formatted = EmptyString) then content else formatted
    end.

(** The body of the loop of the [AfterChatModel] middleware: what
    [state.Messages[i]] is after the iteration on [msg]; reading the role of a
    nil message panics. *)
Definition formatMessage (msg : MessagePtr) : result MessagePtr :=
  match msg with
  | None => Err runtimePanic
  | Some msg =>
      if decide (Role msg = Tool ∧ Content msg ≠ EmptyString) then
        let formatted := formatToolResult (Content msg) in
        if decide (formatted ≠ Content msg) then
          let toolCallID :=
            match ToolCalls msg with
            | tc :: _ => Schema.ID tc
            | [] => EmptyString
            end in
          Ok (Some (ToolMessage formatted toolCallID))
        else Ok (Some msg)
      else Ok (Some msg)
  end.

(** [for i, msg := range state.Messages { ... }] *)
Definition AfterChatModel (messages : list MessagePtr) : result (list MessagePtr) :=
  mapM formatMessage messages.

End ToolResult.

End Agent.

(** ** Package [agent]: the exchanges *)

Module AgentRun.
Import Schema Memory Agent.

(** The [BeforeChatModel] middleware, installed when [MaxHistory > 0]:
    [state.Messages = state.Messages[len(state.Messages)-MaxHistory*2:]] when
    the list is longer than [MaxHistory*2].  [int] is 64 bits wide; a slice
    bound outside [0, len] panics. *)
Definition BeforeChatModel (MaxHistory : Z) (messages : list MessagePtr)
  : result (list MessagePtr) :=
  let n := Z.of_nat (length messages) in
  let limit := Int64.wrap (MaxHistory * 2) in
  if decide (n > limit) then
    let low := Int64.wrap (n - limit) in
    if decide (0 ≤ low ≤ n) then Ok (drop (Z.to_nat low) messages)
    else Err runtimePanic
  else Ok messages.

(** [event.Output.MessageOutput]: its fields, and what its method
    [GetMessage()] returns.  [MessageStream] is nil or the chunks that [Recv]
    returns before its first error. *)
Record MessageVariant : Type := mkMessageVariant {
  IsStreaming : bool;
  Message : MessagePtr;
  MessageStream : option (list MessagePtr);
  GetMessage : MessagePtr * option error
}.

(** An event of the runner: [event.Err], and [event.Output.MessageOutput]
    when both are there. *)
Record AgentEvent : Type := mkAgentEvent {
  EventErr : option error;
  MessageOutput : option MessageVariant
}.

(** [session.Messages = append(session.Messages, message)] *)
Definition appendMessage {St} (a : Agent St) (session : nat) (message : MessagePtr)
  : Agent St :=
  {| sessions := sessions a;
     heap := alter (λ s, {| ID := ID s; Messages := Messages s ++ [message] |})
               session (heap a);
     memoryStore := memoryStore a |}.

(** [session.Messages] *)
Definition messagesOf {St} (a : Agent St) (session : nat) : list MessagePtr :=
  match heap a !! session with
  | Some s => Messages s
  | None => []
  end.

(** "Collect response from events": the message of the last event that has
    no error and whose [GetMessage()] gives a message and no error. *)
Definition lastResponse (events : list AgentEvent) : MessagePtr :=
  foldl (λ response event,
           match EventErr event with
           | Some _ => response
           | None =>
               match MessageOutput event with
               | Some output =>
                   match GetMessage output with
                   | (Some msg, None) => Some msg
                   | _ => response
                   end
               | None => response
               end
           end)
    None events.

(** [Chat], for the events that [a.runner.Query] yields. *)
Definition Chat `{Store St} (events : list AgentEvent) (a : Agent St)
  (sessionID userMessage : string) : Agent St * result MessagePtr :=
  let '(a, session, _) := GetOrCreateSession a sessionID in
  let a := appendMessage a session (Some (UserMessage userMessage)) in
  match lastResponse events with
  | None => (a, Err (errorString "no assistant response received"))
  | Some response =>
      let a := appendMessage a session (Some response) in
      let a := persistSession a sessionID (messagesOf a session) in
      (a, Ok (Some response))
  end.

(** What the goroutine of [ChatStream] sends to the stream, in order: the
    chunks that are not nil of a streaming output, the message of another
    output. *)
Definition forwarded (events : list AgentEvent) : list Schema.Message :=
  events ≫= λ event,
    match EventErr event with
    | Some _ => []
    | None =>
        match MessageOutput event with
        | None => []
        | Some output =>
            match IsStreaming output, MessageStream output with
            | true, Some chunks => omap id chunks
            | _, _ =>
                match Message output with
                | Some msg => [msg]
                | None => []
                end
            end
        end
    end.

(** [ChatStream]: the agent it leaves and the messages the reader of the
    stream receives before the end of the stream; it returns no error. *)
Definition ChatStream `{Store St} (events : list AgentEvent) (a : Agent St)
  (sessionID userMessage : string) : Agent St * list Schema.Message :=
  let '(a, session, _) := GetOrCreateSession a sessionID in
  let a := appendMessage a session (Some (UserMessage userMessage)) in
  let a := persistSession a sessionID (messagesOf a session) in
  (a, forwarded events).

End AgentRun.

(** ** Package [api]: the streamed response *)

Module Api.
Import Memory Agent AgentRun.

Record OpenAIMessage : Type := mkOpenAIMessage {
  Role : string;
  Content : string
}.

Record Choice : Type := mkChoice {
  Index : Z;
  Message : option OpenAIMessage;
  Delta : option OpenAIMessage;
  FinishReason : string
}.

Record OpenAIStreamEvent : Type := mkOpenAIStreamEvent {
  ID : string;
  Object : string;
  Created : Z;
  Model : string;
  Choices : list Choice
}.

(** [schema.AssistantMessage(content, nil)] *)
Definition AssistantMessage (content : string) : Schema.Message :=
  {| Schema.Role := Schema.Assistant; Schema.Content := content;
     Schema.ToolCalls := []; Schema.ToolCallID := EmptyString; Schema.Extra := ∅ |}.

Section StreamResponse.

(** The name of the model, and the id and the time of the completion (a
    fresh UUID and the clock). *)
Variables (modelName completionID : string) (created : Z).

Definition chunkEvent (choice : Choice) : OpenAIStreamEvent :=
  {| ID := completionID; Object := "chat.completion.chunk"; Created := created;
     Model := modelName; Choices := [choice] |}.

(** "Stream content": the loop on [stream.Recv()], for the chunks received
    before the end of the stream; returns [fullContent] and the events
    sent. *)
Definition streamContent (chunks : list Schema.Message)
  : string * list OpenAIStreamEvent :=
  foldl (λ '(fullContent, sent) chunk,
           if decide (Schema.Content chunk ≠ EmptyString) then
             (fullContent +:+ Schema.Content chunk,
              sent ++ [chunkEvent {| Index := 0; Message := None;
                         Delta := Some {| Role := EmptyString;
                                          Content := Schema.Content chunk |};
                         FinishReason := EmptyString |}])
           else (fullContent, sent))
    (EmptyString, []) chunks.

(** [handleStreamResponse] on the stream of [ChatStream], which ends without
    an error: the agent it leaves and the events it publishes. *)
Definition handleStreamResponse `{Store St} (events : list AgentEvent) (a : Agent St)
  (sessionID userMessage : string) : Agent St * list OpenAIStreamEvent :=
  let '(a, stream) := ChatStream events a sessionID userMessage in
  let initialEvent :=
    chunkEvent {| Index := 0; Message := None;
                  Delta := Some {| Role := "assistant"; Content := EmptyString |};
                  FinishReason := EmptyString |} in
  let '(fullContent, sent) := streamContent stream in
  let finishEvent :=
    chunkEvent {| Index := 0; Message := None; Delta := None; FinishReason := "stop" |} in
  (AppendAssistantMessage a sessionID (Some (AssistantMessage fullContent)),
   [initialEvent] ++ sent ++ [finishEvent]).

End StreamResponse.

End Api.

(** ** Package [agent], the ReAct agent *)

Module ReactAgent.
Import Schema Memory Agent AgentRun.

(** The fields of [Config] the exchange reads. *)
Record Config : Type := mkConfig {
  SystemPrompt : string;
  MaxHistory : Z
}.

(** "Apply history limit":
    [append([]*schema.Message{Messages[0]}, Messages[len-MaxHistory*2:]...)]
    when [MaxHistory > 0] and the list is longer than [MaxHistory*2+1]. *)
Definition limitHistory (MaxHistory : Z) (messages : list MessagePtr)
  : result (list MessagePtr) :=
  let n := Z.of_nat (length messages) in
  if decide (MaxHistory > 0 ∧ n > Int64.add (Int64.wrap (MaxHistory * 2)) 1) then
    first ← index messages 0;
    let low := Int64.wrap (n - Int64.wrap (MaxHistory * 2)) in
    if decide (0 ≤ low ≤ n) then Ok ([first] ++ drop (Z.to_nat low) messages)
    else Err runtimePanic
  else Ok messages.

(** [session.Messages = msgs] *)
Definition setMessages {St} (a : Agent St) (session : nat) (msgs : list MessagePtr)
  : Agent St :=
  {| sessions := sessions a;
     heap := alter (λ s, {| Agent.ID := Agent.ID s; Messages := msgs |}) session (heap a);
     memoryStore := memoryStore a |}.

(** [Chat] of the ReAct agent, for the [Generate] of the agent library; the
    registry functions of this agent are those of the ADK agent, word for
    word. *)
Definition Chat `{Store St} (config : Config)
  (Generate : list MessagePtr → result MessagePtr) (a : Agent St)
  (sessionID userMessage : string) : Agent St * result MessagePtr :=
  let '(a, session, _) := GetOrCreateSession a sessionID in
  let a :=
    if decide (length (messagesOf a session) = 0%nat ∧ SystemPrompt config ≠ EmptyString)
    then appendMessage a session (Some (SystemMessage (SystemPrompt config)))
    else a in
  let a := appendMessage a session (Some (UserMessage userMessage)) in
  match limitHistory (MaxHistory config) (messagesOf a session) with
  | Err e => (a, Err e)
  | Ok msgs =>
      let a := setMessages a session msgs in
      match Generate (messagesOf a session) with
      | Err err => (a, Err (wrapError "agent generate failed" err))
      | Ok response =>
          let a := appendMessage a session response in
          let a := persistSession a sessionID (messagesOf a session) in
          (a, Ok response)
      end
  end.

End ReactAgent.

(** * Properties *)

(** ** 64-bit arithmetic *)

Lemma Int64_wrap_in_range z : Int64.in_range (Int64.wrap z).
Proof.
  unfold Int64.in_range, Int64.wrap, Int64.min_int, Int64.max_int.
  pose proof (Z.mod_pos_bound (z + 2 ^ 63) (2 ^ 64) ltac:(lia)). lia.
Qed.

Lemma Int64_wrap_small z : Int64.in_range z → Int64.wrap z = z.
Proof.
  unfold Int64.in_range, Int64.wrap, Int64.min_int, Int64.max_int. intros Hz.
  rewrite Z.mod_small by lia. lia.
Qed.

(** Without overflow the [int64] sum is the sum. *)
Lemma Int64_add_exact a b : Int64.in_range (a + b) → Int64.add a b = a + b.
Proof. apply Int64_wrap_small. Qed.

(** ** The budget split *)

Section BudgetSplit.
Import Schema Summarization.

Variable maxRecent : Z.

Lemma index_lookup {A} (xs : list A) i x : xs !! i = Some x → index xs i = Ok x.
Proof. unfold index. by intros ->. Qed.

Lemma index_lt {A} (xs : list A) i : (i < length xs)%nat → ∃ x, xs !! i = Some x ∧ index xs i = Ok x.
Proof.
  intros Hi. destruct (lookup_lt_is_Some_2 xs i Hi) as [x Hx].
  exists x. split; [done | by apply index_lookup].
Qed.

(** The loop is a left fold of its body over the blocks it has not seen yet,
    taken newest first. *)
Lemma budgetLoop_foldl toolBlocks n st :
  (n ≤ length toolBlocks)%nat →
  budgetLoop maxRecent toolBlocks n st =
  Ok (foldl (λ st b, budgetBody maxRecent b st) st (reverse (take n toolBlocks))).
Proof.
  revert st. induction n as [|i IH]; intros st Hn; simpl.
  - done.
  - destruct (index_lt toolBlocks i ltac:(lia)) as (b & Hb & ->). simpl.
    rewrite IH by lia.
    rewrite (take_S_r _ _ _ Hb), reverse_app. done.
Qed.

(** The two lists grow at the front only, by blocks in their original order,
    and between them they receive every block. *)
Lemma foldl_budgetBody_order bs st :
  ∃ r o,
    recentBlocks (foldl (λ st b, budgetBody maxRecent b st) st (reverse bs)) = r ++ recentBlocks st ∧
    olderBlocks (foldl (λ st b, budgetBody maxRecent b st) st (reverse bs)) = o ++ olderBlocks st ∧
    sublist r bs ∧ sublist o bs ∧ bs ≡ₚ r ++ o.
Proof.
  revert st. induction bs as [|b bs IH] using rev_ind; intros st.
  - exists [], []. by rewrite reverse_nil.
  - rewrite reverse_app, reverse_singleton. simpl.
    destruct (IH (budgetBody maxRecent b st)) as (r & o & Hr & Ho & Sr & So & HP).
    rewrite Hr, Ho. clear Hr Ho IH.
    unfold budgetBody.
    destruct (decide (Int64.add (recentTokens st) (tokens b) > maxRecent)); simpl.
    + exists r, (o ++ [b]). repeat split.
      * by rewrite <-(assoc_L (++)).
      * by apply sublist_inserts_r.
      * by apply sublist_app.
      * rewrite HP. by rewrite (assoc_L (++)).
    + exists (r ++ [b]), o. repeat split.
      * by rewrite <-(assoc_L (++)).
      * by apply sublist_app.
      * by apply sublist_inserts_r.
      * rewrite HP. rewrite <-!(assoc_L (++)). f_equiv. apply Permutation_app_comm.
Qed.

(** The walk returns: no index it uses is out of range. *)
Lemma budget_split_total toolBlocks : ∃ st, budgetSplit maxRecent toolBlocks = Ok st.
Proof. unfold budgetSplit. rewrite budgetLoop_foldl by lia. eauto. Qed.

End BudgetSplit.

Section BudgetSplitClaim.
Import Schema Summarization.

(** When the sum does not overflow, the test of the loop body is the
    comparison of the sum of the two token counts with the budget. *)
Lemma budgetBody_exact maxRecent b st :
  Int64.in_range (recentTokens st + tokens b) →
  budgetBody maxRecent b st =
  if decide (recentTokens st + tokens b > maxRecent)
  then mkSplit (recentBlocks st) (b :: olderBlocks st) (recentTokens st)
  else mkSplit (b :: recentBlocks st) (olderBlocks st) (recentTokens st + tokens b).
Proof. intros H. unfold budgetBody. by rewrite Int64_add_exact. Qed.

(** C1.  The budget split walks the step-4 blocks from the newest to the
    oldest with a running total that starts at zero.  At the block [b] of
    index [i] the loop goes on, with [i] blocks left, from the state in which
    [b] was prepended to the older list and the total left as it was when the
    total plus the tokens of [b] (an [int64] sum) exceeds
    [maxTokensForRecentMessages], and otherwise from the state in which [b]
    was prepended to the recent list and its tokens added.  The walk tests
    every block: its result is the fold of that step over all the blocks,
    newest first, the recent and the older list are both in the original
    relative order and together hold every block.  On token counts [3,4,5]
    with a budget of 10 the recent list is the blocks of 4 and 5 tokens and
    the older list the block of 3 tokens. *)
Theorem budget_split_walk (maxRecent : Z) (toolBlocks : list messageBlock) :
  (∀ (i : nat) (b : messageBlock) (st : split),
     toolBlocks !! i = Some b →
     budgetLoop maxRecent toolBlocks (S i) st =
     budgetLoop maxRecent toolBlocks i
       (if decide (Int64.add (recentTokens st) (tokens b) > maxRecent)
        then mkSplit (recentBlocks st) (b :: olderBlocks st) (recentTokens st)
        else mkSplit (b :: recentBlocks st) (olderBlocks st)
               (Int64.add (recentTokens st) (tokens b))))
  ∧ budgetSplit maxRecent toolBlocks =
    Ok (foldl (λ st b, budgetBody maxRecent b st) split0 (reverse toolBlocks))
  ∧ (∃ st, budgetSplit maxRecent toolBlocks = Ok st
           ∧ sublist (recentBlocks st) toolBlocks
           ∧ sublist (olderBlocks st) toolBlocks
           ∧ toolBlocks ≡ₚ recentBlocks st ++ olderBlocks st)
  ∧ (∀ m3 m4 m5 : list MessagePtr,
       budgetSplit 10 [mkBlock m3 3; mkBlock m4 4; mkBlock m5 5] =
       Ok (mkSplit [mkBlock m4 4; mkBlock m5 5] [mkBlock m3 3] 9)).
Proof.
  assert (Hfold : budgetSplit maxRecent toolBlocks =
    Ok (foldl (λ st b, budgetBody maxRecent b st) split0 (reverse toolBlocks))).
  { unfold budgetSplit. rewrite budgetLoop_foldl by lia. by rewrite firstn_all. }
  split; [|split; [|split]].
  - intros i b st Hb. simpl. by rewrite (index_lookup _ _ _ Hb).
  - exact Hfold.
  - destruct (foldl_budgetBody_order maxRecent toolBlocks split0)
      as (r & o & Hr & Ho & Sr & So & HP).
    eexists. split; [exact Hfold|].
    rewrite Hr, Ho. simpl. by rewrite !(right_id_L [] (++)).
  - intros m3 m4 m5. reflexivity.
Qed.

End BudgetSplitClaim.

(** ** Block classification *)

Section SplitMessages.
Import Schema Summarization.

(** The entries of a message list that are not nil, in order. *)
Definition nonNil (l : list MessagePtr) : list MessagePtr :=
  filter (λ m, is_Some m) l.

Lemma nonNil_all l : Forall is_Some l → nonNil l = l.
Proof.
  unfold nonNil. induction 1 as [|m l Hm _ IH]; [done|].
  rewrite filter_cons_True by done. by f_equal.
Qed.

Lemma nonNil_drop_Some (messages : list MessagePtr) i m :
  messages !! i = Some (Some m) →
  nonNil (drop i messages) = Some m :: nonNil (drop (S i) messages).
Proof.
  intros H. rewrite (drop_S _ _ _ H). unfold nonNil.
  by rewrite filter_cons_True by done.
Qed.

Lemma nonNil_drop_None (messages : list MessagePtr) i :
  messages !! i = Some None →
  nonNil (drop i messages) = nonNil (drop (S i) messages).
Proof.
  intros H. rewrite (drop_S _ _ _ H). unfold nonNil.
  rewrite filter_cons_False; [done|]. by intros [? ?].
Qed.

Variables (messages : list MessagePtr) (msgsToken : list Z).
Hypothesis enough_tokens : (length messages ≤ length msgsToken)%nat.

Lemma token_at i (m : MessagePtr) :
  messages !! i = Some m → ∃ t, index msgsToken i = Ok t.
Proof.
  intros H. apply lookup_lt_Some in H.
  destruct (index_lt msgsToken i ltac:(lia)) as (t & _ & Ht). eauto.
Qed.

Ltac with_token H :=
  let t := fresh "t" in
  let Ht := fresh "Ht" in
  destruct (token_at _ _ H) as [t Ht]; rewrite Ht; simpl.

(** The initial-user loop returns, stops inside the list, and moves to its
    block exactly the non-nil messages it walked over. *)
Lemma splitUser_spec fuel idx ub :
  (length messages - idx ≤ fuel)%nat →
  (idx ≤ length messages)%nat →
  ∃ ub' idx',
    splitUser fuel messages msgsToken idx ub = Ok (ub', idx') ∧
    (idx ≤ idx' ≤ length messages)%nat ∧
    msgs ub' ++ nonNil (drop idx' messages) = msgs ub ++ nonNil (drop idx messages).
Proof.
  revert idx ub. induction fuel as [|fuel IH]; intros idx ub Hfuel Hidx.
  - exists ub, idx. simpl.
    rewrite (lookup_ge_None_2 messages idx) by lia. auto with lia.
  - simpl. destruct (messages !! idx) as [[msg|]|] eqn:Hm.
    + destruct (decide (Role msg ≠ User)).
      { exists ub, idx. auto with lia. }
      pose proof (lookup_lt_Some _ _ _ Hm).
      with_token Hm.
      destruct (IH (S idx) (appendMsg ub msg t)) as (ub' & idx' & -> & ? & Heq); [lia..|].
      exists ub', idx'. split; [done|]. split; [lia|].
      rewrite Heq. simpl. rewrite (nonNil_drop_Some _ _ _ Hm).
      by rewrite <-(assoc_L (++)).
    + pose proof (lookup_lt_Some _ _ _ Hm).
      destruct (IH (S idx) ub) as (ub' & idx' & -> & ? & Heq); [lia..|].
      exists ub', idx'. split; [done|]. split; [lia|].
      by rewrite Heq, (nonNil_drop_None _ _ Hm).
    + exists ub, idx. auto with lia.
Qed.

(** The same for the loop that collects the tool messages of an exchange. *)
Lemma collectTools_spec fuel callIDs j b :
  (length messages - j ≤ fuel)%nat →
  (j ≤ length messages)%nat →
  ∃ b' j',
    collectTools fuel messages msgsToken callIDs j b = Ok (b', j') ∧
    (j ≤ j' ≤ length messages)%nat ∧
    msgs b' ++ nonNil (drop j' messages) = msgs b ++ nonNil (drop j messages) ∧
    (length (msgs b) ≤ length (msgs b'))%nat.
Proof.
  revert j b. induction fuel as [|fuel IH]; intros j b Hfuel Hj.
  - exists b, j. simpl.
    rewrite (lookup_ge_None_2 messages j) by lia. auto with lia.
  - simpl. destruct (messages !! j) as [[nm|]|] eqn:Hm;
      [|exists b, j; auto with lia..].
    pose proof (lookup_lt_Some _ _ _ Hm).
    assert (Hstep : ∀ t, ∃ b' j',
      collectTools fuel messages msgsToken callIDs (S j) (appendMsg b nm t) = Ok (b', j') ∧
      (j ≤ j' ≤ length messages)%nat ∧
      msgs b' ++ nonNil (drop j' messages) = msgs b ++ nonNil (drop j messages) ∧
      (length (msgs b) ≤ length (msgs b'))%nat).
    { intros t.
      destruct (IH (S j) (appendMsg b nm t)) as (b' & j' & -> & ? & Heq & Hlen); [lia..|].
      exists b', j'. split; [done|]. split; [lia|]. split.
      - rewrite Heq. simpl. rewrite (nonNil_drop_Some _ _ _ Hm).
        by rewrite <-(assoc_L (++)).
      - simpl in Hlen. rewrite length_app in Hlen. simpl in Hlen. lia. }
    destruct (decide (Role nm ≠ Tool)); [exists b, j; auto with lia|].
    destruct (decide (ToolCallID nm = EmptyString)).
    { with_token Hm. apply Hstep. }
    destruct (decide (ToolCallID nm ∈ callIDs)); [|exists b, j; auto with lia].
    with_token Hm. apply Hstep.
Qed.

(** The step-4 loop returns, and the blocks it appends hold, block after
    block, the non-nil messages from its start index on; none is empty. *)
Lemma splitTools_spec fuel i acc :
  (length messages - i ≤ fuel)%nat →
  (i ≤ length messages)%nat →
  ∃ new,
    splitTools fuel messages msgsToken i acc = Ok (acc ++ new) ∧
    concat (msgs <$> new) = nonNil (drop i messages) ∧
    Forall (λ b, msgs b ≠ []) new.
Proof.
  revert i acc. induction fuel as [|fuel IH]; intros i acc Hfuel Hi.
  - exists []. simpl.
    rewrite (lookup_ge_None_2 messages i) by lia.
    rewrite (right_id_L [] (++)), drop_ge by lia. done.
  - simpl. destruct (messages !! i) as [[msg|]|] eqn:Hm.
    + pose proof (lookup_lt_Some _ _ _ Hm).
      with_token Hm.
      destruct (decide (Role msg = Assistant ∧ (0 < length (ToolCalls msg))%nat)).
      * destruct (collectTools_spec (length messages) (callIDsOf msg) (S i)
                    {| msgs := [Some msg]; tokens := t |})
          as (b & j & -> & Hj & Heq & Hlen); [lia..|]. simpl.
        replace (S (j - 1)) with j by lia.
        destruct (IH j (acc ++ [b])) as (new & -> & Hnew & Hne); [lia..|].
        exists (b :: new). split; [by rewrite <-(assoc_L (++))|]. split.
        -- rewrite fmap_cons. cbn [concat]. rewrite Hnew, Heq. simpl.
           by rewrite (nonNil_drop_Some _ _ _ Hm).
        -- constructor; [|done]. simpl in Hlen. destruct (msgs b); [simpl in Hlen; lia|done].
      * destruct (IH (S i) (acc ++ [{| msgs := [Some msg]; tokens := t |}]))
          as (new & -> & Hnew & Hne); [lia..|].
        exists ({| msgs := [Some msg]; tokens := t |} :: new).
        split; [by rewrite <-(assoc_L (++))|]. split.
        -- rewrite fmap_cons. cbn [concat]. by rewrite Hnew, (nonNil_drop_Some _ _ _ Hm).
        -- by constructor.
    + pose proof (lookup_lt_Some _ _ _ Hm).
      destruct (IH (S i) acc) as (new & -> & Hnew & Hne); [lia..|].
      exists new. split; [done|]. split; [|done].
      by rewrite Hnew, (nonNil_drop_None _ _ Hm).
    + exists []. rewrite (right_id_L [] (++)).
      rewrite drop_ge by (by apply lookup_ge_None). done.
Qed.

End SplitMessages.

Section SplitMessagesClaim.
Import Schema Summarization.

Lemma splitSystem_spec (messages : list MessagePtr) (msgsToken : list Z) :
  (length messages ≤ length msgsToken)%nat →
  ∃ sb idx,
    splitSystem messages msgsToken = Ok (sb, idx) ∧
    (idx ≤ length messages)%nat ∧
    msgs sb ++ nonNil (drop idx messages) = nonNil messages.
Proof.
  intros Hlen. unfold splitSystem.
  destruct (messages !! 0%nat) as [[msg|]|] eqn:Hm;
    [|exists zeroBlock, 0%nat; auto with lia..].
  destruct (decide (Role msg = System)); [|exists zeroBlock, 0%nat; auto with lia].
  pose proof (lookup_lt_Some _ _ _ Hm).
  destruct (token_at messages msgsToken Hlen _ _ Hm) as [t ->]. simpl.
  exists (appendMsg zeroBlock msg t), 1%nat. split; [done|]. split; [lia|].
  simpl. by rewrite <-(nonNil_drop_Some _ _ _ Hm).
Qed.

Lemma splitSummary_spec (messages : list MessagePtr) (msgsToken : list Z) idx :
  (length messages ≤ length msgsToken)%nat →
  (idx ≤ length messages)%nat →
  ∃ sb idx',
    splitSummary messages msgsToken idx = Ok (sb, idx') ∧
    (idx' ≤ length messages)%nat ∧
    msgs sb ++ nonNil (drop idx' messages) = nonNil (drop idx messages).
Proof.
  intros Hlen Hidx. unfold splitSummary.
  destruct (messages !! idx) as [[msg|]|] eqn:Hm;
    [|exists zeroBlock, idx; auto with lia..].
  destruct (decide (Role msg = Assistant)); [|exists zeroBlock, idx; auto with lia].
  destruct (Extra msg !! summaryMessageFlag); [|exists zeroBlock, idx; auto with lia].
  pose proof (lookup_lt_Some _ _ _ Hm).
  destruct (token_at messages msgsToken Hlen _ _ Hm) as [t ->]. simpl.
  exists (appendMsg zeroBlock msg t), (S idx). split; [done|]. split; [lia|].
  simpl. by rewrite <-(nonNil_drop_Some _ _ _ Hm).
Qed.

(** With a token for every message [splitMessages] returns, and its blocks,
    one after the other, are the messages that are not nil, in order. *)
Lemma splitMessages_spec (messages : list MessagePtr) (msgsToken : list Z) :
  (length messages ≤ length msgsToken)%nat →
  ∃ bs,
    splitMessages messages msgsToken = Ok bs ∧
    msgs (systemBlock bs) ++ msgs (userBlock bs) ++ msgs (summaryBlock bs) ++
      concat (msgs <$> toolBlocks bs) = nonNil messages ∧
    Forall (λ b, msgs b ≠ []) (toolBlocks bs).
Proof.
  intros Hlen. unfold splitMessages.
  destruct (splitSystem_spec messages msgsToken Hlen) as (sb & i1 & -> & Hi1 & E1). simpl.
  destruct (splitUser_spec messages msgsToken Hlen (length messages) i1 zeroBlock)
    as (ub & i2 & -> & Hi2 & E2); [lia..|]. simpl.
  destruct (splitSummary_spec messages msgsToken i2 Hlen) as (mb & i3 & -> & Hi3 & E3);
    [lia|]. simpl.
  destruct (splitTools_spec messages msgsToken Hlen (length messages) i3 [])
    as (tb & -> & E4 & Hne); [lia..|]. simpl.
  eexists. split; [done|]. simpl. split; [|done].
  simpl in E2. rewrite E4, E3, E2. exact E1.
Qed.

(** C3.  For a message list whose entries are all non-nil (and a token count
    per message) the classification returns and its blocks partition the
    list: the messages of the System block, of the InitialUser block, of the
    PriorSummary block and of the step-4 blocks, concatenated in this order,
    are the list itself, and no step-4 block is empty.  On
    [System, User, User, AssistantWithCalls(t1,t2), Tool(t1), Tool(t2),
    Assistant] the blocks are System=[sys], InitialUser=[user,user], no
    PriorSummary, and the two step-4 blocks [assistant,t1,t2] and
    [assistant]. *)
Theorem splitMessages_partition :
  (∀ (messages : list MessagePtr) (msgsToken : list Z),
     Forall is_Some messages →
     length msgsToken = length messages →
     ∃ bs,
       splitMessages messages msgsToken = Ok bs ∧
       msgs (systemBlock bs) ++ msgs (userBlock bs) ++ msgs (summaryBlock bs) ++
         concat (msgs <$> toolBlocks bs) = messages ∧
       Forall (λ b, msgs b ≠ []) (toolBlocks bs))
  ∧
  (∀ (sys u1 u2 a1 r1 r2 a2 n1 a1' n2 a2' : string) (t0 t1 t2 t3 t4 t5 t6 : Z),
     let system := Some (SystemMessage sys) in
     let user1 := Some (UserMessage u1) in
     let user2 := Some (UserMessage u2) in
     let calls := Some (mkMessage Assistant a1
                    [mkToolCall "t1" (mkFunctionCall n1 a1');
                     mkToolCall "t2" (mkFunctionCall n2 a2')] EmptyString ∅) in
     let tool1 := Some (ToolMessage r1 "t1") in
     let tool2 := Some (ToolMessage r2 "t2") in
     let assistant := Some (mkMessage Assistant a2 [] EmptyString ∅) in
     ∃ bs,
       splitMessages [system; user1; user2; calls; tool1; tool2; assistant]
         [t0; t1; t2; t3; t4; t5; t6] = Ok bs ∧
       msgs (systemBlock bs) = [system] ∧
       msgs (userBlock bs) = [user1; user2] ∧
       msgs (summaryBlock bs) = [] ∧
       msgs <$> toolBlocks bs = [[calls; tool1; tool2]; [assistant]]).
Proof.
  split.
  - intros messages msgsToken Hnn Hlen.
    destruct (splitMessages_spec messages msgsToken ltac:(lia)) as (bs & Hbs & Hcat & Hne).
    exists bs. by rewrite Hcat, nonNil_all.
  - intros. eexists. split; [reflexivity|]. repeat split; reflexivity.
Qed.

End SplitMessagesClaim.

(** ** [ProcessMessages] *)

Section ProcessMessagesFacts.
Import Schema Summarization.

(** The loop that sums the token counts is the sum of the list when no
    partial sum leaves the [int64] range. *)
Lemma sumTokens_exact (msgsToken : list Z) :
  Forall (λ t, 0 ≤ t) msgsToken →
  foldr Z.add 0 msgsToken ≤ Int64.max_int →
  sumTokens msgsToken = foldr Z.add 0 msgsToken.
Proof.
  unfold sumTokens. intros Hpos Hmax.
  assert (Hgen : ∀ acc, 0 ≤ acc → acc + foldr Z.add 0 msgsToken ≤ Int64.max_int →
            foldl Int64.add acc msgsToken = acc + foldr Z.add 0 msgsToken).
  { clear Hmax. induction Hpos as [|t l Ht Hl IH]; intros acc Hacc Hmax; simpl in *.
    - lia.
    - assert (0 ≤ foldr Z.add 0 l).
      { clear -Hl. induction Hl; simpl; lia. }
      rewrite Int64_add_exact by (unfold Int64.in_range, Int64.min_int, Int64.max_int in *; lia).
      rewrite IH by lia. lia. }
  rewrite Hgen by lia. lia.
Qed.

(** The thresholds of a middleware built by [New] are positive. *)
Lemma New_thresholds_positive compile cfg m :
  New compile cfg = Ok m → 0 < maxBefore m ∧ 0 < maxRecent m.
Proof.
  unfold New. intros H.
  destruct cfg as [cfg|]; [|done].
  destruct (Model cfg); [|done].
  destruct (compile _ _); [|done].
  injection H as <-. simpl.
  unfold DefaultMaxTokensBeforeSummary, DefaultMaxTokensForRecentMessages.
  split; case_decide; lia.
Qed.

(** With a token count per message, the block classification followed by
    the budget split returns. *)
Lemma split_then_budget_total maxRecent (messages : list MessagePtr) (msgsToken : list Z) :
  length messages = length msgsToken →
  ∃ st, (bs ← splitMessages messages msgsToken;
         budgetSplit maxRecent (toolBlocks bs)) = Ok st.
Proof.
  intros Hlen.
  destruct (splitMessages_spec messages msgsToken ltac:(lia)) as (bs & -> & _). simpl.
  destruct (budget_split_total maxRecent (toolBlocks bs)) as [st Hst]. eauto.
Qed.

(** On a list that is not empty the first thing [ProcessMessages] does is to
    run the token counter on the whole list. *)
Lemma ProcessMessages_runs_counter m (messages : list MessagePtr) :
  messages ≠ [] →
  ∃ evs, (ProcessMessages m messages).1 = CounterCall messages :: evs.
Proof.
  intros Hne. unfold ProcessMessages.
  destruct (decide (length messages = 0%nat)) as [H0|_].
  { by destruct messages. }
  destruct (counter m messages) as [msgsToken|]; [|by eexists].
  repeat case_decide; try by eexists.
  destruct (_ ≫= _) as [st|]; [|by eexists].
  destruct (summarizer m _); by eexists.
Qed.

(** On the empty list nothing is called and the list is returned. *)
Lemma ProcessMessages_empty m : ProcessMessages m [] = ([], Ok []).
Proof. reflexivity. Qed.

End ProcessMessagesFacts.

Section ProcessMessagesClaims.
Import Schema Summarization.

(** C4.  Whenever [ProcessMessages] returns without an error, whatever calls
    it made on the way, the list it returns is the list it was given: the
    summary is produced by a call whose result is dropped. *)
Theorem ProcessMessages_returns_input m (messages : list MessagePtr) evs out :
  ProcessMessages m messages = (evs, Ok out) → out = messages.
Proof.
  unfold ProcessMessages. intros H.
  repeat case_decide; try congruence.
  - destruct (counter m messages) as [msgsToken|]; [|congruence].
    repeat case_decide; try congruence.
    destruct (_ ≫= _) as [st|]; [|congruence].
    destruct (summarizer m _); congruence.
Qed.

(** C5.  For a middleware built by [New], a message list whose token counts
    (one per message) sum to more than [maxTokensBeforeSummary] makes
    [ProcessMessages] invoke the summarizer, once and after the counter; if
    that invocation returns an error, [ProcessMessages] returns an error,
    the summarizer's error wrapped, and no message list. *)
Theorem ProcessMessages_summarizer_error compile cfg m
    (messages : list MessagePtr) (msgsToken : list Z) :
  New compile cfg = Ok m →
  counter m messages = Ok msgsToken →
  length msgsToken = length messages →
  sumTokens msgsToken > maxBefore m →
  ∃ olderText,
    (ProcessMessages m messages).1 = [CounterCall messages; SummarizerInvoke olderText] ∧
    ∀ err, summarizer m olderText = Err err →
           (ProcessMessages m messages).2 = Err (wrapError "summarize failed" err).
Proof.
  intros Hnew Hcount Hlen Hsum.
  destruct (New_thresholds_positive _ _ _ Hnew) as [Hpos _].
  unfold ProcessMessages. rewrite Hcount.
  destruct (decide (length messages = 0%nat)) as [H0|_].
  { destruct msgsToken; [|simpl in *; lia]. unfold sumTokens in Hsum. simpl in Hsum. lia. }
  rewrite decide_False by lia.
  rewrite decide_False by lia.
  destruct (split_then_budget_total (maxRecent m) messages msgsToken ltac:(lia)) as [st ->].
  exists (joinBlocks (olderBlocks st)). split.
  - by destruct (summarizer m _).
  - by intros err ->.
Qed.

(** C6.  When the token counter, run by [ProcessMessages] on the message
    list, returns a list whose length is not the number of messages,
    [ProcessMessages] fails with the mismatch error: it returns no message
    list, and the counter call is the only call it made (no summarizer
    invocation). *)
Theorem ProcessMessages_count_mismatch m (messages : list MessagePtr) (msgsToken : list Z) :
  CounterCall messages ∈ (ProcessMessages m messages).1 →
  counter m messages = Ok msgsToken →
  length msgsToken ≠ length messages →
  ProcessMessages m messages =
  ([CounterCall messages],
   Err (tokenCountMismatch (length messages) (length msgsToken))).
Proof.
  unfold ProcessMessages. intros Hran Hcount Hlen.
  destruct (decide (length messages = 0%nat)) as [H0|_].
  { simpl in Hran. by apply elem_of_nil in Hran. }
  rewrite Hcount. by rewrite decide_True by congruence.
Qed.

(** C7.  For a message list that is not empty and whose token counts (one
    per message) sum to at most [maxTokensBeforeSummary], the equal case
    included, [ProcessMessages] returns the list it was given and the counter
    call is the only call it made: the summarizer is not invoked. *)
Theorem ProcessMessages_below_threshold m (messages : list MessagePtr) (msgsToken : list Z) :
  messages ≠ [] →
  counter m messages = Ok msgsToken →
  length msgsToken = length messages →
  sumTokens msgsToken ≤ maxBefore m →
  ProcessMessages m messages = ([CounterCall messages], Ok messages).
Proof.
  unfold ProcessMessages. intros Hne Hcount Hlen Hsum.
  destruct (decide (length messages = 0%nat)) as [H0|_].
  { by destruct messages. }
  rewrite Hcount. rewrite decide_False by lia. by rewrite decide_True.
Qed.

End ProcessMessagesClaims.

(** ** Concrete runs of [ProcessMessages] *)

Section ProcessMessagesRuns.
Import Schema Summarization.

(** A user turn, an answer and a second user turn: 3, 5 and 1 tokens for
    the default counter. *)
Definition conversation : list MessagePtr :=
  [Some (UserMessage "hello there");
   Some (mkMessage Assistant "general kenobi" [] EmptyString ∅);
   Some (UserMessage "ok")].

(** A chain whose model answers with a summary, and one whose model fails. *)
Definition summaryModel : ChatModel :=
  λ _, Ok (Some (mkMessage Assistant "Summary of previous conversation:" []
                   EmptyString ∅)).
Definition failingModel : ChatModel :=
  λ _, Err (errorString "model unavailable").
Definition chainOf (systemPrompt : string) (model : ChatModel) : result Summarizer :=
  Ok (λ older_messages,
        model [SystemMessage systemPrompt;
               UserMessage ("Please summarize the following conversation history:

" +:+ older_messages)]).

Definition smallConfig (model : ChatModel) : Config :=
  {| MaxTokensBeforeSummary := 8; MaxTokensForRecentMessages := 3;
     Counter := None; Model := Some model; SystemPrompt := EmptyString |}.

Definition smallMiddleware (model : ChatModel) : Middleware :=
  {| counter := defaultCounterToken; maxBefore := 8; maxRecent := 3;
     summarizer := λ older_messages,
        model [SystemMessage defaultSummaryPrompt;
               UserMessage ("Please summarize the following conversation history:

" +:+ older_messages)] |}.


(** The threshold set to the 9 tokens of [conversation], and a counter that
    returns a single count whatever the list. *)
Definition exactMiddleware : Middleware :=
  {| counter := defaultCounterToken; maxBefore := 9; maxRecent := 3;
     summarizer := λ older_messages, summaryModel [UserMessage older_messages] |}.
Definition shortCounter : TokenCounter := λ _, Ok [1].
Definition miscountingMiddleware : Middleware :=
  {| counter := shortCounter; maxBefore := 9; maxRecent := 3;
     summarizer := λ older_messages, summaryModel [UserMessage older_messages] |}.

Lemma ProcessMessages_returns_input_witness :
  ProcessMessages (smallMiddleware summaryModel) conversation =
    ([CounterCall conversation;
      SummarizerInvoke "[assistant]
general kenobi

"],
     Ok conversation)
  ∧ conversation = conversation.
Proof.
  split; [reflexivity|].
  eapply (ProcessMessages_returns_input (smallMiddleware summaryModel) conversation).
  reflexivity.
Defined.

Lemma ProcessMessages_summarizer_error_witness :
  sumTokens [3; 5; 1] > maxBefore (smallMiddleware failingModel) ∧
  ∃ olderText,
    (ProcessMessages (smallMiddleware failingModel) conversation).1 =
      [CounterCall conversation; SummarizerInvoke olderText] ∧
    ∀ err, summarizer (smallMiddleware failingModel) olderText = Err err →
           (ProcessMessages (smallMiddleware failingModel) conversation).2 =
           Err (wrapError "summarize failed" err).
Proof.
  split; [reflexivity|].
  apply (ProcessMessages_summarizer_error chainOf (Some (smallConfig failingModel))
           (smallMiddleware failingModel) conversation [3; 5; 1]);
    reflexivity.
Defined.

Lemma ProcessMessages_count_mismatch_witness :
  length [1] ≠ length conversation ∧
  ProcessMessages miscountingMiddleware conversation =
  ([CounterCall conversation], Err (tokenCountMismatch 3 1)).
Proof.
  split; [simpl; lia|].
  apply (ProcessMessages_count_mismatch miscountingMiddleware conversation [1]).
  - simpl. apply list_elem_of_here.
  - reflexivity.
  - simpl. lia.
Defined.

Lemma ProcessMessages_below_threshold_witness :
  sumTokens [3; 5; 1] = maxBefore exactMiddleware ∧
  ProcessMessages exactMiddleware conversation = ([CounterCall conversation], Ok conversation).
Proof.
  split; [reflexivity|].
  apply (ProcessMessages_below_threshold exactMiddleware conversation [3; 5; 1]).
  - discriminate.
  - reflexivity.
  - reflexivity.
  - vm_compute. discriminate.
Defined.

End ProcessMessagesRuns.

(** ** The persistence stores *)

Section MemoryFacts.
Import Schema Memory.

(** A slice made with the length of [l] and filled by [copy] from [l] is
    [l]. *)
Lemma copy_make (l : list MessagePtr) : copy (make (length l)) l = l.
Proof.
  unfold copy, make. rewrite length_replicate, firstn_all.
  rewrite drop_ge by (by rewrite length_replicate).
  by rewrite (right_id_L [] (++)).
Qed.

Lemma InMemoryStore_Write_ok (s : InMemoryStore) sessionID (msgs : list MessagePtr) :
  InMemoryStore_Write s sessionID msgs =
  ({| data := <[sessionID := msgs]> (data s) |}, None).
Proof. unfold InMemoryStore_Write. by rewrite copy_make. Qed.

(** Writing a session leaves what the store holds for the other sessions. *)
Lemma InMemoryStore_Write_other (s : InMemoryStore) sessionID other (msgs : list MessagePtr) :
  sessionID ≠ other →
  Read (Write s sessionID msgs).1 other = Read s other.
Proof.
  intros Hne. change (Write s sessionID msgs) with (InMemoryStore_Write s sessionID msgs).
  rewrite InMemoryStore_Write_ok. cbn -[copy make].
  unfold InMemoryStore_Read. cbn -[copy make]. by rewrite lookup_insert_ne.
Qed.

(** A session that was never written is a miss: a nil slice and no error. *)
Lemma InMemoryStore_Read_miss sessionID :
  Read NewInMemoryStore sessionID = (None, None).
Proof. reflexivity. Qed.

(** The in-memory store never returns an error. *)
Lemma InMemoryStore_no_error (s : InMemoryStore) sessionID (msgs : list MessagePtr) :
  (Write s sessionID msgs).2 = None ∧ (Read s sessionID).2 = None.
Proof.
  split; [done|]. simpl. unfold InMemoryStore_Read.
  by destruct (data s !! sessionID).
Qed.

Section Redis.

Variable gobEncode : list MessagePtr → result (list Byte.byte).
Variable gobDecode : list Byte.byte → result (option (list MessagePtr)).
Context `{RedisClient R}.

(** An error of the Redis store comes with a nil slice. *)
Lemma RedisStore_Read_error (s : RedisStore R) sessionID msgs err :
  RedisStore_Read gobDecode s sessionID = (msgs, Some err) → msgs = None.
Proof.
  unfold RedisStore_Read.
  destruct (Get _ _); [destruct (DecodeMessages _ _)|..]; congruence.
Qed.

End Redis.





End MemoryFacts.

(** ** The session registry *)

Section Registry.
Import Schema Memory Agent.
Context `{Store St}.

(** Every session the registry knows is an object of the heap. *)
Definition registry_wf (a : Agent St) : Prop :=
  ∀ sessionID session, sessions a !! sessionID = Some session →
                       is_Some (heap a !! session).

Lemma GetOrCreateSession_existing (a : Agent St) sessionID session :
  sessions a !! sessionID = Some session →
  GetOrCreateSession a sessionID = (a, session, []).
Proof. unfold GetOrCreateSession. by intros ->. Qed.

(** What the store hands to a new session. *)
Definition loaded (a : Agent St) (sessionID : string) : list MessagePtr :=
  match memoryStore a with
  | Some store => default [] (Read store sessionID).1
  | None => []
  end.

Lemma GetOrCreateSession_new (a : Agent St) sessionID :
  sessions a !! sessionID = None →
  ∃ evs,
    GetOrCreateSession a sessionID =
      ({| sessions := <[sessionID := length (heap a)]> (sessions a);
          heap := heap a ++ [{| ID := sessionID; Messages := loaded a sessionID |}];
          memoryStore := memoryStore a |},
       length (heap a), evs) ∧
    match memoryStore a with
    | Some _ => ∃ logs, evs = StoreRead sessionID :: logs ∧
                        Forall (λ e, e ≠ StoreRead sessionID) logs
    | None => evs = []
    end.
Proof.
  unfold GetOrCreateSession, loaded. intros ->.
  destruct (memoryStore a) as [store|]; [|by eexists].
  destruct (Read store sessionID) as [[msgs|] [err|]]; simpl;
    eexists; (split; [reflexivity|]); eexists; (split; [reflexivity|]);
    repeat constructor; discriminate.
Qed.

Lemma GetOrCreateSession_wf (a : Agent St) sessionID :
  registry_wf a → registry_wf (GetOrCreateSession a sessionID).1.1.
Proof.
  intros Hwf. destruct (sessions a !! sessionID) as [session|] eqn:Hs.
  - by rewrite (GetOrCreateSession_existing _ _ _ Hs).
  - destruct (GetOrCreateSession_new _ _ Hs) as (evs & -> & _). simpl.
    intros id l. simpl. rewrite lookup_insert. case_decide as Hid.
    + intros [= <-]. rewrite lookup_app_r, Nat.sub_diag by lia. by eexists.
    + intros Hl. destruct (Hwf _ _ Hl) as [s Hsl].
      exists s. by apply lookup_app_l_Some.
Qed.

Lemma ClearSession_wf (a : Agent St) sessionID :
  registry_wf a → registry_wf (ClearSession a sessionID).
Proof.
  intros Hwf id l. simpl. rewrite lookup_delete. case_decide; [done|]. apply Hwf.
Qed.

Lemma AppendAssistantMessage_wf (a : Agent St) sessionID message :
  registry_wf a → registry_wf (AppendAssistantMessage a sessionID message).
Proof.
  intros Hwf. unfold AppendAssistantMessage.
  destruct (sessions a !! sessionID) as [session|]; [|done].
  intros id l Hl. simpl in *. destruct (Hwf _ _ Hl) as [s Hs].
  rewrite list_lookup_alter. case_decide; subst; rewrite Hs; by eexists.
Qed.

(** C8.  [GetOrCreateSession] always returns a session, installed under the
    id in the agent it leaves.  When the id had a session it is that one, the
    agent is unchanged and the store is not read.  When it had none, the
    session is a new object holding what the store handed over: for a nil
    slice, with or without an error (a miss, a failed read), and for an agent
    without a store, it is empty; the error of a failed read goes to the log
    only.  A second call with the same id returns the same session, leaves the
    agent as the first call left it and does not read the store. *)
Theorem GetOrCreateSession_never_fails (a : Agent St) (sessionID : string) :
  ∃ a' session evs,
    GetOrCreateSession a sessionID = (a', session, evs) ∧
    sessions a' !! sessionID = Some session ∧
    (∀ existing, sessions a !! sessionID = Some existing →
       session = existing ∧ a' = a ∧ evs = []) ∧
    (sessions a !! sessionID = None →
       heap a' !! session = Some {| ID := sessionID; Messages := loaded a sessionID |} ∧
       heap a !! session = None ∧
       (∀ store err, memoryStore a = Some store →
          Read store sessionID = (None, err) →
          heap a' !! session = Some {| ID := sessionID; Messages := [] |}) ∧
       (memoryStore a = None →
          heap a' !! session = Some {| ID := sessionID; Messages := [] |})) ∧
    GetOrCreateSession a' sessionID = (a', session, []).
Proof.
  destruct (sessions a !! sessionID) as [existing|] eqn:Hs.
  - exists a, existing, []. rewrite (GetOrCreateSession_existing _ _ _ Hs).
    split; [done|]. split; [done|]. split; [by intros ? [= <-]|]. split; [done|].
    done.
  - destruct (GetOrCreateSession_new _ _ Hs) as (evs & -> & _).
    eexists _, _, _. split; [reflexivity|]. simpl.
    assert (Hnew : ∀ s : Session, (heap a ++ [s]) !! length (heap a) = Some s).
    { intros s. by rewrite lookup_app_r, Nat.sub_diag by lia. }
    split; [by rewrite lookup_insert_eq|]. split; [done|]. split.
    + intros _. split; [apply Hnew|]. split; [by apply lookup_ge_None_2|].
      unfold loaded. split.
      * intros store err -> Hread. rewrite Hread. apply Hnew.
      * intros ->. apply Hnew.
    + apply GetOrCreateSession_existing. simpl. by rewrite lookup_insert_eq.
Qed.

(** C10.  When the id has no session in the registry,
    [AppendAssistantMessage] returns the agent as it was: the session map,
    every session object and the store are what they were, and no session is
    installed. *)
Theorem AppendAssistantMessage_unknown_session (a : Agent St) (sessionID : string)
    (message : MessagePtr) :
  sessions a !! sessionID = None →
  AppendAssistantMessage a sessionID message = a.
Proof. unfold AppendAssistantMessage. by intros ->. Qed.

(** In particular after [ClearSession]. *)
Lemma AppendAssistantMessage_after_clear (a : Agent St) sessionID message :
  AppendAssistantMessage (ClearSession a sessionID) sessionID message =
  ClearSession a sessionID.
Proof.
  unfold AppendAssistantMessage. simpl. by rewrite lookup_delete_eq.
Qed.

(** On a known session the message is appended to that session and to no
    other object. *)
Lemma AppendAssistantMessage_known (a : Agent St) sessionID session s message :
  sessions a !! sessionID = Some session →
  heap a !! session = Some s →
  heap (AppendAssistantMessage a sessionID message) !! session =
    Some {| ID := ID s; Messages := Messages s ++ [message] |} ∧
  ∀ other, other ≠ session →
    heap (AppendAssistantMessage a sessionID message) !! other = heap a !! other.
Proof.
  unfold AppendAssistantMessage. intros -> Hs. simpl. split.
  - by rewrite list_lookup_alter_eq, Hs.
  - intros other Hne. by rewrite list_lookup_alter_ne.
Qed.

End Registry.

Section RegistryRuns.
Import Schema Memory Agent.

(** The registry of a new agent on the in-memory store, and the registry
    after the sessions [s1] and [s2] were created and [s1] was cleared. *)
Definition newAgent : Agent InMemoryStore :=
  {| sessions := ∅; heap := []; memoryStore := Some NewInMemoryStore |}.
Definition clearedAgent : Agent InMemoryStore :=
  ClearSession
    (GetOrCreateSession (GetOrCreateSession newAgent "s1").1.1 "s2").1.1 "s1".

Lemma AppendAssistantMessage_unknown_session_witness :
  sessions clearedAgent !! "s1" = None ∧
  AppendAssistantMessage clearedAgent "s1"
    (Some (mkMessage Assistant "late reply" [] EmptyString ∅)) = clearedAgent.
Proof.
  split; [vm_compute; reflexivity|].
  apply (AppendAssistantMessage_unknown_session clearedAgent "s1").
  vm_compute. reflexivity.
Defined.

End RegistryRuns.

(** ** Tool-result formatting *)

Section ToolResultFacts.
Import Schema Agent.

Variable jsonUnmarshal : string → result (list contentItem).

(** A message that is not a Tool message, or has no content, or whose
    content [formatToolResult] returns as it is, stays in place. *)
Lemma formatMessage_unchanged (msg : Message) :
  Role msg ≠ Tool ∨ Content msg = EmptyString ∨
    formatToolResult jsonUnmarshal (Content msg) = Content msg →
  formatMessage jsonUnmarshal (Some msg) = Ok (Some msg).
Proof.
  unfold formatMessage. intros Hcase.
  case_decide as Htool; [|done].
  case_decide as Hfmt; [|done].
  destruct Htool as [Hrole Hcontent].
  destruct Hcase as [Hc|[Hc|Hc]]; congruence.
Qed.

(** A Tool message whose content [formatToolResult] changes is replaced by a
    new Tool message, with the formatted content and, as its call id, the id
    of the first entry of [ToolCalls], or the empty id when there is none. *)
Lemma formatMessage_replaced (msg : Message) :
  Role msg = Tool → Content msg ≠ EmptyString →
  formatToolResult jsonUnmarshal (Content msg) ≠ Content msg →
  formatMessage jsonUnmarshal (Some msg) =
  Ok (Some (ToolMessage (formatToolResult jsonUnmarshal (Content msg))
              (match ToolCalls msg with
               | tc :: _ => Schema.ID tc
               | [] => EmptyString
               end))).
Proof.
  unfold formatMessage. intros Hrole Hcontent Hfmt.
  rewrite decide_True by done. by rewrite decide_True.
Qed.

(** Without white space around it, a content that does not start with
    [{"content"] is returned as it is. *)
Lemma formatToolResult_other_shape content :
  TrimSpace content = content →
  HasPrefix content ("{" +:+ dq +:+ "content" +:+ dq) = false →
  formatToolResult jsonUnmarshal content = content.
Proof. unfold formatToolResult. by intros -> ->. Qed.

(** The same when the content does not parse. *)
Lemma formatToolResult_malformed content err :
  TrimSpace content = content →
  jsonUnmarshal content = Err err →
  formatToolResult jsonUnmarshal content = content.
Proof.
  unfold formatToolResult. intros -> ->. by destruct (negb _).
Qed.

(** The structured result of a tool: one text part. *)
Definition structuredResult : string :=
  "{" +:+ dq +:+ "content" +:+ dq +:+ ":[{" +:+ dq +:+ "type" +:+ dq +:+ ":" +:+
  dq +:+ "text" +:+ dq +:+ "," +:+ dq +:+ "text" +:+ dq +:+ ":" +:+ dq +:+
  "sunny" +:+ dq +:+ "}]}".

Lemma formatToolResult_structured :
  jsonUnmarshal structuredResult = Ok [mkContentItem "text" "sunny"] →
  formatToolResult jsonUnmarshal structuredResult = "sunny".
Proof.
  intros Hjson. unfold formatToolResult.
  change (TrimSpace structuredResult) with structuredResult.
  change (HasPrefix structuredResult ("{" +:+ dq +:+ "content" +:+ dq)) with true.
  simpl negb. cbv iota. by rewrite Hjson.
Qed.

(** C2, on the tool-call id.  The Tool message that answers the call
    [call_1] with a structured result is replaced by a Tool message with the
    text of the result and an empty call id: the id of the message is not kept,
    the replacement takes its id from the [ToolCalls] of the message, which a
    Tool message does not have. *)
Theorem AfterChatModel_drops_tool_call_id :
  jsonUnmarshal structuredResult = Ok [mkContentItem "text" "sunny"] →
  AfterChatModel jsonUnmarshal [Some (ToolMessage structuredResult "call_1")] =
    Ok [Some (ToolMessage "sunny" EmptyString)] ∧
  ToolCallID (ToolMessage "sunny" EmptyString) ≠
    ToolCallID (ToolMessage structuredResult "call_1").
Proof.
  intros Hjson. split; [|done].
  unfold AfterChatModel. cbn [mapM].
  rewrite formatMessage_replaced; [|done|done|].
  - simpl. by rewrite (formatToolResult_structured Hjson).
  - simpl. by rewrite (formatToolResult_structured Hjson).
Qed.

(** A raw content with white space around it does not pass through
    unchanged either: the message is replaced by one with the trimmed content
    and an empty call id, whatever the decoder. *)
Lemma AfterChatModel_trims_raw_content :
  AfterChatModel jsonUnmarshal [Some (ToolMessage "done " "call_1")] =
  Ok [Some (ToolMessage "done" EmptyString)].
Proof. reflexivity. Qed.

(** Raw content without white space around it passes through, with the
    message and its call id. *)
Lemma AfterChatModel_raw_content :
  AfterChatModel jsonUnmarshal [Some (ToolMessage "done" "call_1")] =
  Ok [Some (ToolMessage "done" "call_1")].
Proof. reflexivity. Qed.

End ToolResultFacts.

Section ToolResultRuns.
Import Schema Agent.

(** A decoder that knows the structured result above and nothing else. *)
Definition decodeStructured (content : string) : result (list contentItem) :=
  if decide (content = structuredResult) then Ok [mkContentItem "text" "sunny"]
  else Err (errorString "invalid character").

Lemma AfterChatModel_drops_tool_call_id_witness :
  AfterChatModel decodeStructured [Some (ToolMessage structuredResult "call_1")] =
    Ok [Some (ToolMessage "sunny" EmptyString)] ∧
  ToolCallID (ToolMessage "sunny" EmptyString) ≠
    ToolCallID (ToolMessage structuredResult "call_1").
Proof.
  apply (AfterChatModel_drops_tool_call_id decodeStructured).
  vm_compute. reflexivity.
Defined.

End ToolResultRuns.

(** ** Concrete runs of the classification, the budget split and the stores *)

Section Runs.
Import Schema Summarization Memory Agent.

(** A system prompt, two user messages, an assistant message with the calls
    [t1] and [t2], their two results and a last assistant message. *)
Definition exchange : list MessagePtr :=
  [Some (SystemMessage "be brief");
   Some (UserMessage "what is the weather");
   Some (UserMessage "in Paris");
   Some (mkMessage Assistant EmptyString
           [mkToolCall "t1" (mkFunctionCall "geocode" "Paris");
            mkToolCall "t2" (mkFunctionCall "weather" "Paris")] EmptyString ∅);
   Some (ToolMessage "48.85,2.35" "t1");
   Some (ToolMessage "sunny" "t2");
   Some (mkMessage Assistant "It is sunny in Paris." [] EmptyString ∅)].

Lemma splitMessages_partition_witness :
  Forall is_Some exchange ∧
  ∃ bs,
    splitMessages exchange [3; 5; 3; 8; 3; 2; 7] = Ok bs ∧
    msgs (systemBlock bs) ++ msgs (userBlock bs) ++ msgs (summaryBlock bs) ++
      concat (msgs <$> toolBlocks bs) = exchange ∧
    Forall (λ b, msgs b ≠ []) (toolBlocks bs).
Proof.
  assert (Hnn : Forall is_Some exchange) by (repeat constructor; by eexists).
  split; [exact Hnn|].
  apply (proj1 splitMessages_partition exchange [3; 5; 3; 8; 3; 2; 7] Hnn).
  reflexivity.
Defined.

(** The tokens of the blocks are the sums of the tokens of their messages. *)
Example splitMessages_exchange :
  splitMessages exchange [3; 5; 3; 8; 3; 2; 7] =
  Ok {| systemBlock := mkBlock (take 1 exchange) 3;
        userBlock := mkBlock (take 2 (drop 1 exchange)) 8;
        summaryBlock := zeroBlock;
        toolBlocks := [mkBlock (take 3 (drop 3 exchange)) 13;
                       mkBlock (drop 6 exchange) 7] |}.
Proof. vm_compute. reflexivity. Qed.

(** A tool message that answers a call of another assistant message ends the
    exchange and is a block of its own; one without a call id is absorbed. *)
Example splitMessages_foreign_tool :
  let calls := Some (mkMessage Assistant EmptyString
                       [mkToolCall "t1" (mkFunctionCall "geocode" "Paris")]
                       EmptyString ∅) in
  (bs ← splitMessages
     [calls; Some (ToolMessage "anonymous" EmptyString);
      Some (ToolMessage "stray" "t9"); Some (ToolMessage "late" "t1")]
     [1; 1; 1; 1];
   Ok (toolBlocks bs)) =
  Ok [mkBlock [calls; Some (ToolMessage "anonymous" EmptyString)] 2;
      mkBlock [Some (ToolMessage "stray" "t9")] 1;
      mkBlock [Some (ToolMessage "late" "t1")] 1].
Proof. vm_compute. reflexivity. Qed.

(** An assistant message tagged as a summary, after the user messages, is
    the PriorSummary block. *)
Example splitMessages_prior_summary :
  let summary := Some (mkMessage Assistant "Summary of previous conversation:" []
                         EmptyString {[ summaryMessageFlag := anyBool true ]}) in
  splitMessages [Some (UserMessage "hi"); summary; Some (UserMessage "more")] [1; 8; 1] =
  Ok {| systemBlock := zeroBlock;
        userBlock := mkBlock [Some (UserMessage "hi")] 1;
        summaryBlock := mkBlock [summary] 8;
        toolBlocks := [mkBlock [Some (UserMessage "more")] 1] |}.
Proof. vm_compute. reflexivity. Qed.

(** The walk does not stop at the first block that does not fit: with a
    budget of 10, the block of 20 tokens is older and the older block of 3
    tokens is recent. *)
Example budgetSplit_not_contiguous :
  budgetSplit 10 [mkBlock [] 3; mkBlock [] 20; mkBlock [] 5] =
  Ok (mkSplit [mkBlock [] 3; mkBlock [] 5] [mkBlock [] 20] 8).
Proof. reflexivity. Qed.

Lemma budget_split_walk_witness :
  budgetLoop 10 [mkBlock [] 3; mkBlock [] 4; mkBlock [] 5] 1
    (mkSplit [mkBlock [] 4; mkBlock [] 5] [] 9) =
  budgetLoop 10 [mkBlock [] 3; mkBlock [] 4; mkBlock [] 5] 0
    (mkSplit [mkBlock [] 4; mkBlock [] 5] [mkBlock [] 3] 9).
Proof.
  apply (proj1 (budget_split_walk 10 [mkBlock [] 3; mkBlock [] 4; mkBlock [] 5])
           0%nat (mkBlock [] 3) (mkSplit [mkBlock [] 4; mkBlock [] 5] [] 9)).
  reflexivity.
Defined.




(** The first call for [s1] on a new agent reads the store, misses and
    installs an empty session; the second returns it without a read. *)
Example GetOrCreateSession_twice :
  GetOrCreateSession newAgent "s1" =
    ({| sessions := {[ "s1" := 0%nat ]}; heap := [mkSession "s1" []];
        memoryStore := Some NewInMemoryStore |}, 0%nat, [StoreRead "s1"]) ∧
  GetOrCreateSession (GetOrCreateSession newAgent "s1").1.1 "s1" =
    ((GetOrCreateSession newAgent "s1").1.1, 0%nat, []).
Proof. split; vm_compute; reflexivity. Qed.

Lemma GetOrCreateSession_never_fails_witness :
  sessions newAgent !! "s1" = None ∧
  ∃ a' session evs,
    GetOrCreateSession newAgent "s1" = (a', session, evs) ∧
    heap a' !! session = Some (mkSession "s1" []) ∧
    GetOrCreateSession a' "s1" = (a', session, []).
Proof.
  split; [reflexivity|].
  destruct (GetOrCreateSession_never_fails newAgent "s1")
    as (a' & session & evs & Hcall & _ & _ & Hnew & Htwice).
  exists a', session, evs. split; [exact Hcall|]. split; [|exact Htwice].
  destruct (Hnew eq_refl) as (_ & _ & Hmiss & _).
  apply (Hmiss NewInMemoryStore None); reflexivity.
Defined.

(** A session that was persisted is loaded by the first call. *)
Example GetOrCreateSession_loads :
  let a := {| sessions := ∅; heap := [];
              memoryStore := Some (Write NewInMemoryStore "s1" exchange).1 |} in
  (GetOrCreateSession a "s1").1.2 = 0%nat ∧
  heap (GetOrCreateSession a "s1").1.1 !! 0%nat = Some (mkSession "s1" exchange).
Proof. split; vm_compute; reflexivity. Qed.

End Runs.

(** * Further properties of the compactor *)

Section CounterFacts.
Import Schema Summarization.

Lemma len_nonneg s : 0 ≤ len s.
Proof. unfold len. lia. Qed.

Lemma len_positive s : s ≠ EmptyString → 0 < len s.
Proof. destruct s; [done|]. intros _. unfold len. simpl. lia. Qed.

Lemma toolCalls_len_nonneg (tcs : list ToolCall) acc :
  0 ≤ acc →
  0 ≤ foldl (λ acc tc, acc + len (Name (Function tc)) + len (Arguments (Function tc)))
        acc tcs.
Proof.
  revert acc. induction tcs as [|tc tcs IH]; intros acc Hacc; simpl; [done|].
  apply IH. pose proof (len_nonneg (Name (Function tc))).
  pose proof (len_nonneg (Arguments (Function tc))). lia.
Qed.

(** The count of a message: never negative, and 0 only when there is nothing
    to count. *)
Lemma defaultCounterToken_spec (msgs : list MessagePtr) :
  ∃ msgsToken,
    defaultCounterToken msgs = Ok msgsToken ∧
    length msgsToken = length msgs ∧
    Forall2 (λ (m : MessagePtr) t,
               match m with
               | None => t = 0
               | Some m =>
                   0 ≤ t ∧ (t = 0 ↔ Role m = EmptyString ∧ Content m = EmptyString)
               end)
      msgs msgsToken.
Proof.
  unfold defaultCounterToken. eexists. split; [reflexivity|].
  split; [by rewrite length_fmap|].
  apply Forall2_fmap_r, Forall_Forall2_diag, Forall_forall.
  intros [m|] _; [|done]. unfold compose, roleString. cbv beta iota zeta.
  match goal with |- context [?x `quot` 4] => set (n := x) end.
  assert (Hcalls : 0 ≤ (if decide (Role m = Assistant ∧ (0 < length (ToolCalls m))%nat)
                        then foldl (λ acc tc,
                               acc + len (Name (Function tc)) + len (Arguments (Function tc)))
                             0 (ToolCalls m)
                        else 0)).
  { case_decide; [|lia]. apply toolCalls_len_nonneg. lia. }
  pose proof (len_nonneg (Role m)) as Hrole. pose proof (len_nonneg (Content m)) as Hcontent.
  assert (Hn : 0 ≤ n) by (subst n; lia).
  assert (Hq : 0 ≤ n `quot` 4) by (apply Z.quot_pos; lia).
  assert (Hq1 : 4 ≤ n → 1 ≤ n `quot` 4).
  { intros H4. rewrite Z.quot_div_nonneg by lia. apply Z.div_le_lower_bound; lia. }
  assert (Hempty : n = 0 ↔ Role m = EmptyString ∧ Content m = EmptyString).
  { split.
    - intros Hn0. split; apply dec_stable; intros Hne; apply len_positive in Hne;
        subst n; lia.
    - intros [Hr Hc]. subst n. rewrite Hr, Hc.
      rewrite decide_False; [done|]. intros [Ha _]. discriminate Ha. }
  clearbody n. rewrite <-Hempty.
  destruct (decide (n `quot` 4 = 0 ∧ n > 0)) as [Hcase|Hcase].
  - split; [lia|]. split; lia.
  - split; [lia|]. split; [|intros ->; reflexivity].
    intros Hzero. apply dec_stable. intros Hne. apply Hcase. split; [done|lia].
Qed.

(** X1.  The default counter never fails and returns one count per message,
    none of them negative: 0 for a nil message and for a message whose role
    and content are both empty, and at least 1 for every other message. *)
Theorem defaultCounterToken_counts (msgs : list MessagePtr) :
  ∃ msgsToken,
    defaultCounterToken msgs = Ok msgsToken ∧
    length msgsToken = length msgs ∧
    Forall2 (λ (m : MessagePtr) t,
               match m with
               | None => t = 0
               | Some m =>
                   if decide (Role m = EmptyString ∧ Content m = EmptyString)
                   then t = 0 else 1 ≤ t
               end)
      msgs msgsToken.
Proof.
  destruct (defaultCounterToken_spec msgs) as (msgsToken & Hrun & Hlen & Hcounts).
  exists msgsToken. split; [done|]. split; [done|].
  eapply Forall2_impl; [exact Hcounts|].
  intros [m|] t; [|done]. intros [Hpos Hzero].
  case_decide as Hempty; [by apply Hzero|].
  destruct (decide (t = 0)) as [Ht|Ht]; [|lia]. by apply Hzero in Ht.
Qed.

End CounterFacts.

Section ProcessMessagesOutcomes.
Import Schema Summarization.

(** The ways [ProcessMessages] ends: the input list is returned; the counter failed and its error
    is wrapped, the counter call being the only call; the counts do not match
    the messages; or the summarizer failed, after the counter, and its error
    is wrapped. *)
Lemma ProcessMessages_cases m (messages : list MessagePtr) :
  (ProcessMessages m messages).2 = Ok messages
  ∨ (∃ err, counter m messages = Err err ∧
            ProcessMessages m messages =
              ([CounterCall messages], Err (wrapError "count token failed" err)))
  ∨ (∃ msgsToken, counter m messages = Ok msgsToken ∧
                  length msgsToken ≠ length messages ∧
                  ProcessMessages m messages =
                    ([CounterCall messages],
                     Err (tokenCountMismatch (length messages) (length msgsToken))))
  ∨ (∃ olderText err, summarizer m olderText = Err err ∧
                      ProcessMessages m messages =
                        ([CounterCall messages; SummarizerInvoke olderText],
                         Err (wrapError "summarize failed" err))).
Proof.
  unfold ProcessMessages.
  destruct (decide (length messages = 0%nat)); [by left|].
  destruct (counter m messages) as [msgsToken|err] eqn:Hcount;
    [|right; left; by exists err].
  destruct (decide (length messages ≠ length msgsToken)).
  { right; right; left. exists msgsToken. split; [done|]. split; [|done]. congruence. }
  destruct (decide (sumTokens msgsToken ≤ maxBefore m)); [by left|].
  destruct (split_then_budget_total (maxRecent m) messages msgsToken) as [st ->].
  { lia. }
  destruct (summarizer m (joinBlocks (olderBlocks st))) as [?|err] eqn:Hsum; [by left|].
  right; right; right. by exists (joinBlocks (olderBlocks st)), err.
Qed.

(** X2.  [ProcessMessages] ends in one of four ways and in no other (it does
    not panic): the input list is returned; the counter failed and its error
    is wrapped, the counter call being the only call; the counts do not match
    the messages; or the summarizer failed, after the counter, and its error
    is wrapped. *)
Theorem ProcessMessages_outcomes m (messages : list MessagePtr) :
  (ProcessMessages m messages).2 = Ok messages
  ∨ (∃ err, counter m messages = Err err ∧
            ProcessMessages m messages =
              ([CounterCall messages], Err (wrapError "count token failed" err)))
  ∨ (∃ msgsToken, counter m messages = Ok msgsToken ∧
                  length msgsToken ≠ length messages ∧
                  ProcessMessages m messages =
                    ([CounterCall messages],
                     Err (tokenCountMismatch (length messages) (length msgsToken))))
  ∨ (∃ olderText err, summarizer m olderText = Err err ∧
                      ProcessMessages m messages =
                        ([CounterCall messages; SummarizerInvoke olderText],
                         Err (wrapError "summarize failed" err))).
Proof. apply ProcessMessages_cases. Qed.

(** X3.  The summarizer is invoked only after the counter returned one count
    per message and these sum to more than [maxBefore]; it is invoked at most
    once, after the only counter call. *)
Theorem ProcessMessages_summarizer_only_above m (messages : list MessagePtr) olderText :
  SummarizerInvoke olderText ∈ (ProcessMessages m messages).1 →
  (∃ msgsToken, counter m messages = Ok msgsToken ∧
                length msgsToken = length messages ∧
                sumTokens msgsToken > maxBefore m) ∧
  (ProcessMessages m messages).1 = [CounterCall messages; SummarizerInvoke olderText].
Proof.
  unfold ProcessMessages.
  assert (Hno1 : ∀ e : Event, SummarizerInvoke olderText ∈ [CounterCall messages] → e = e → False).
  { intros _ Hin _. apply list_elem_of_singleton in Hin. discriminate. }
  destruct (decide (length messages = 0%nat)).
  { simpl. intros Hin. by apply elem_of_nil in Hin. }
  destruct (counter m messages) as [msgsToken|err] eqn:Hcount.
  2:{ simpl. intros Hin. apply list_elem_of_singleton in Hin. discriminate. }
  destruct (decide (length messages ≠ length msgsToken)).
  { simpl. intros Hin. apply list_elem_of_singleton in Hin. discriminate. }
  destruct (decide (sumTokens msgsToken ≤ maxBefore m)).
  { simpl. intros Hin. apply list_elem_of_singleton in Hin. discriminate. }
  destruct (_ ≫= _) as [st|].
  2:{ simpl. intros Hin. apply list_elem_of_singleton in Hin. discriminate. }
  assert (Hev : (match summarizer m (joinBlocks (olderBlocks st)) with
                 | Ok _ => ([CounterCall messages; SummarizerInvoke (joinBlocks (olderBlocks st))],
                            Ok messages)
                 | Err err => ([CounterCall messages; SummarizerInvoke (joinBlocks (olderBlocks st))],
                               Err (wrapError "summarize failed" err))
                 end).1 = [CounterCall messages; SummarizerInvoke (joinBlocks (olderBlocks st))]).
  { by destruct (summarizer m _). }
  cbv zeta. rewrite Hev. intros Hin.
  apply elem_of_cons in Hin as [Hin|Hin]; [discriminate|].
  apply list_elem_of_singleton in Hin. injection Hin as ->.
  split; [|done]. exists msgsToken. split; [done|]. split; lia.
Qed.

(** X4.  With the default counter the only error [ProcessMessages] can
    return is the wrapped error of the summarizer. *)
Theorem ProcessMessages_default_counter m (messages : list MessagePtr) :
  counter m = defaultCounterToken →
  (ProcessMessages m messages).2 = Ok messages
  ∨ ∃ err, (ProcessMessages m messages).2 = Err (wrapError "summarize failed" err).
Proof.
  intros Hdefault.
  destruct (defaultCounterToken_spec messages) as (toks & Htoks & Hlen & _).
  destruct (ProcessMessages_cases m messages)
    as [Hok|[(err & Hc & _)|[(toks' & Hc & Hne & _)|(text & err & _ & ->)]]].
  - by left.
  - rewrite Hdefault in Hc. congruence.
  - rewrite Hdefault in Hc. congruence.
  - right. by exists err.
Qed.

End ProcessMessagesOutcomes.

Section BlockShapes.
Import Schema Summarization.

Lemma bind_Ok_inv {A B} (r : result A) (f : A → result B) b :
  r ≫= f = Ok b → ∃ a, r = Ok a ∧ f a = Ok b.
Proof. destruct r as [a|]; [|done]. intros Hf. by exists a. Qed.

(** A tool message that a block opened by [msg] takes: its call id is empty
    or one of the ids in [callIDs]. *)
Definition answers (callIDs : gset string) (nm : MessagePtr) : Prop :=
  ∃ t, nm = Some t ∧ Role t = Tool ∧
       (ToolCallID t = EmptyString ∨ ToolCallID t ∈ callIDs).

(** A step-4 block: a first message, not nil, and after it only tool
    messages that answer it; there are such messages only behind an assistant
    message that carries tool calls. *)
Definition stepBlock (b : messageBlock) : Prop :=
  ∃ msg rest,
    msgs b = Some msg :: rest ∧
    Forall (answers (callIDsOf msg)) rest ∧
    (rest ≠ [] → Role msg = Assistant ∧ ToolCalls msg ≠ []).

Lemma collectTools_answers fuel (messages : list MessagePtr) msgsToken callIDs j b b' j' :
  collectTools fuel messages msgsToken callIDs j b = Ok (b', j') →
  ∃ extra, msgs b' = msgs b ++ extra ∧ Forall (answers callIDs) extra.
Proof.
  revert j b. induction fuel as [|fuel IH]; intros j b; simpl.
  - destruct (messages !! j); [done|]. intros [= <- <-].
    exists []. by rewrite (right_id_L [] (++)).
  - assert (Hstop : Ok (b, j) = Ok (b', j') →
              ∃ extra, msgs b' = msgs b ++ extra ∧ Forall (answers callIDs) extra).
    { intros [= <- <-]. exists []. by rewrite (right_id_L [] (++)). }
    destruct (messages !! j) as [[nm|]|]; [|done..].
    destruct (decide (Role nm ≠ Tool)) as [|Hrole]; [done|].
    assert (Hstep : ToolCallID nm = EmptyString ∨ ToolCallID nm ∈ callIDs →
      (index msgsToken j ≫= λ t,
         collectTools fuel messages msgsToken callIDs (S j) (appendMsg b nm t)) = Ok (b', j') →
      ∃ extra, msgs b' = msgs b ++ extra ∧ Forall (answers callIDs) extra).
    { intros Hid Hrun. apply bind_Ok_inv in Hrun as (t & _ & Hrun).
      destruct (IH _ _ Hrun) as (extra & -> & Hextra).
      exists (Some nm :: extra). simpl. split; [by rewrite <-(assoc_L (++))|].
      constructor; [|done]. exists nm. split; [done|]. split; [|done].
      by apply dec_stable. }
    destruct (decide (ToolCallID nm = EmptyString)); [apply Hstep; by left|].
    destruct (decide (ToolCallID nm ∈ callIDs)); [apply Hstep; by right|done].
Qed.

Lemma splitTools_stepBlocks fuel (messages : list MessagePtr) msgsToken i acc res :
  splitTools fuel messages msgsToken i acc = Ok res →
  Forall stepBlock acc → Forall stepBlock res.
Proof.
  revert i acc. induction fuel as [|fuel IH]; intros i acc; simpl.
  - destruct (messages !! i); [done|]. by intros [= <-].
  - destruct (messages !! i) as [[msg|]|]; [| apply IH | by intros [= <-]].
    destruct (decide (Role msg = Assistant ∧ (0 < length (ToolCalls msg))%nat))
      as [[Hrole Hcalls]|_].
    + intros Hrun Hacc. apply bind_Ok_inv in Hrun as (t & _ & Hrun).
      apply bind_Ok_inv in Hrun as ([b j] & Hcollect & Hrun).
      apply (IH _ _ Hrun). apply Forall_app. split; [done|].
      constructor; [|done].
      destruct (collectTools_answers _ _ _ _ _ _ _ _ Hcollect) as (extra & Hb & Hextra).
      exists msg, extra. simpl in Hb. split; [done|]. split; [done|].
      intros _. split; [done|]. intros Hnil. rewrite Hnil in Hcalls. simpl in Hcalls. lia.
    + intros Hrun Hacc. apply bind_Ok_inv in Hrun as (t & _ & Hrun).
      apply (IH _ _ Hrun). apply Forall_app. split; [done|].
      constructor; [|done]. exists msg, []. by repeat split.
Qed.

Lemma splitUser_roles fuel (messages : list MessagePtr) msgsToken idx ub ub' idx' :
  splitUser fuel messages msgsToken idx ub = Ok (ub', idx') →
  Forall (λ p, ∃ m, p = Some m ∧ Role m = User) (msgs ub) →
  Forall (λ p, ∃ m, p = Some m ∧ Role m = User) (msgs ub').
Proof.
  revert idx ub. induction fuel as [|fuel IH]; intros idx ub; simpl.
  - destruct (messages !! idx); [done|]. by intros [= <- <-].
  - destruct (messages !! idx) as [[msg|]|]; [| apply IH | by intros [= <- <-]].
    destruct (decide (Role msg ≠ User)) as [|Hrole]; [by intros [= <- <-]|].
    intros Hrun Hub. apply bind_Ok_inv in Hrun as (t & _ & Hrun).
    apply (IH _ _ Hrun). simpl. apply Forall_app. split; [done|].
    constructor; [|done]. exists msg. split; [done|]. by apply dec_stable.
Qed.

(** X5.  Whatever the list, nil entries included, with at least one token
    count per message the classification returns and its blocks hold, in
    order, exactly the messages that are not nil: a nil entry is dropped, no
    other message is lost, repeated or moved. *)
Theorem splitMessages_drops_nil (messages : list MessagePtr) (msgsToken : list Z) :
  (length messages ≤ length msgsToken)%nat →
  ∃ bs,
    splitMessages messages msgsToken = Ok bs ∧
    msgs (systemBlock bs) ++ msgs (userBlock bs) ++ msgs (summaryBlock bs) ++
      concat (msgs <$> toolBlocks bs) = filter (λ m, is_Some m) messages.
Proof.
  intros Hlen.
  destruct (splitMessages_spec messages msgsToken Hlen) as (bs & Hbs & Hcat & _).
  by exists bs.
Qed.

(** X6.  The three leading blocks have the shape of their kind: the System
    block is empty or one message of role System; the InitialUser block holds
    only messages of role User; the PriorSummary block is empty or one
    Assistant message whose [Extra] has the summary flag. *)
Theorem splitMessages_leading_blocks (messages : list MessagePtr) (msgsToken : list Z) bs :
  splitMessages messages msgsToken = Ok bs →
  (msgs (systemBlock bs) = [] ∨
   ∃ m, msgs (systemBlock bs) = [Some m] ∧ Role m = System ∧ messages !! 0%nat = Some (Some m)) ∧
  Forall (λ p, ∃ m, p = Some m ∧ Role m = User) (msgs (userBlock bs)) ∧
  (msgs (summaryBlock bs) = [] ∨
   ∃ m, msgs (summaryBlock bs) = [Some m] ∧ Role m = Assistant ∧
        is_Some (Extra m !! summaryMessageFlag)).
Proof.
  unfold splitMessages. intros Hrun.
  apply bind_Ok_inv in Hrun as ([sb i1] & Hsys & Hrun).
  apply bind_Ok_inv in Hrun as ([ub i2] & Husr & Hrun).
  apply bind_Ok_inv in Hrun as ([mb i3] & Hsum & Hrun).
  apply bind_Ok_inv in Hrun as (tb & Htools & [= <-]). simpl.
  split; [|split].
  - unfold splitSystem in Hsys.
    destruct (messages !! 0%nat) as [[msg|]|]; [|injection Hsys as <- _; by left..].
    destruct (decide (Role msg = System)); [|injection Hsys as <- _; by left].
    apply bind_Ok_inv in Hsys as (t & _ & [= <- _]). right. by exists msg.
  - by apply (splitUser_roles _ _ _ _ _ _ _ Husr).
  - unfold splitSummary in Hsum.
    destruct (messages !! i2) as [[msg|]|]; [|injection Hsum as <- _; by left..].
    destruct (decide (Role msg = Assistant)); [|injection Hsum as <- _; by left].
    destruct (Extra msg !! summaryMessageFlag) eqn:Hflag; [|injection Hsum as <- _; by left].
    apply bind_Ok_inv in Hsum as (t & _ & [= <- _]). right.
    exists msg. by rewrite Hflag.
Qed.

(** X7.  Every step-4 block starts with a message that is not nil; the
    messages after the first are Tool messages whose call id is empty or one
    of the call ids of the first, and a block has such messages only when its
    first message is an Assistant message with tool calls. *)
Theorem splitMessages_step_blocks (messages : list MessagePtr) (msgsToken : list Z) bs :
  splitMessages messages msgsToken = Ok bs →
  Forall stepBlock (toolBlocks bs).
Proof.
  unfold splitMessages. intros Hrun.
  apply bind_Ok_inv in Hrun as ([sb i1] & _ & Hrun).
  apply bind_Ok_inv in Hrun as ([ub i2] & _ & Hrun).
  apply bind_Ok_inv in Hrun as ([mb i3] & _ & Hrun).
  apply bind_Ok_inv in Hrun as (tb & Htools & [= <-]). simpl.
  by apply (splitTools_stepBlocks _ _ _ _ _ _ Htools).
Qed.

End BlockShapes.

Section BudgetFacts.
Import Schema Summarization.

Variable maxRecent : Z.

(** The sum of the token counts of a list of blocks. *)
Definition sumBlocks (bs : list messageBlock) : Z :=
  foldr (λ b acc, tokens b + acc) 0 bs.

Lemma sumBlocks_nonneg bs : Forall (λ b, 0 ≤ tokens b) bs → 0 ≤ sumBlocks bs.
Proof. unfold sumBlocks. induction 1; simpl; lia. Qed.

Lemma sumBlocks_app bs1 bs2 : sumBlocks (bs1 ++ bs2) = sumBlocks bs1 + sumBlocks bs2.
Proof. unfold sumBlocks. induction bs1; simpl; lia. Qed.

(** While no sum can overflow, the running total is the sum of the recent
    blocks and stays within the budget. *)
Lemma foldl_budgetBody_total (l : list messageBlock) st :
  Forall (λ b, 0 ≤ tokens b ∧ tokens b + maxRecent ≤ Int64.max_int) l →
  0 ≤ recentTokens st ≤ maxRecent →
  recentTokens st = sumBlocks (recentBlocks st) →
  let st' := foldl (λ st b, budgetBody maxRecent b st) st l in
  0 ≤ recentTokens st' ≤ maxRecent ∧ recentTokens st' = sumBlocks (recentBlocks st').
Proof.
  intros Hl. revert st. induction Hl as [|b l [Hb0 Hb1] _ IH]; intros st Hst Hsum; [done|].
  simpl. apply IH.
  - unfold budgetBody. rewrite Int64_add_exact
      by (unfold Int64.in_range, Int64.min_int, Int64.max_int in *; lia).
    case_decide; simpl; lia.
  - unfold budgetBody. rewrite Int64_add_exact
      by (unfold Int64.in_range, Int64.min_int, Int64.max_int in *; lia).
    case_decide; simpl; [done|]. unfold sumBlocks in *. simpl. lia.
Qed.

(** X8.  When the token counts are not negative and none, added to the
    budget, leaves the [int64] range, the blocks kept as recent weigh together
    no more than [maxRecent], and the running total the loop ends with is
    their sum. *)
Theorem budgetSplit_within_budget (toolBlocks : list messageBlock) :
  0 ≤ maxRecent →
  Forall (λ b, 0 ≤ tokens b ∧ tokens b + maxRecent ≤ Int64.max_int) toolBlocks →
  ∃ st, budgetSplit maxRecent toolBlocks = Ok st ∧
        sumBlocks (recentBlocks st) ≤ maxRecent ∧
        recentTokens st = sumBlocks (recentBlocks st).
Proof.
  intros Hmax Hbs. unfold budgetSplit. rewrite budgetLoop_foldl by lia.
  rewrite firstn_all. eexists. split; [reflexivity|].
  destruct (foldl_budgetBody_total (reverse toolBlocks) split0) as [Hle Heq].
  - by apply Forall_reverse.
  - simpl. lia.
  - done.
  - cbv zeta in Hle, Heq. lia.
Qed.

Lemma foldl_budgetBody_all_fit bs st :
  Forall (λ b, 0 ≤ tokens b) bs →
  0 ≤ recentTokens st →
  recentTokens st + sumBlocks bs ≤ maxRecent →
  maxRecent ≤ Int64.max_int →
  foldl (λ st b, budgetBody maxRecent b st) st (reverse bs) =
  mkSplit (bs ++ recentBlocks st) (olderBlocks st) (recentTokens st + sumBlocks bs).
Proof.
  intros Hbs. revert st.
  induction bs as [|b bs IH] using rev_ind; intros st Hst Hsum Hmax.
  - rewrite reverse_nil. simpl. destruct st. simpl. f_equal. unfold sumBlocks. simpl.
    by rewrite Z.add_0_r.
  - apply Forall_app in Hbs as [Hbs Hb]. apply Forall_inv in Hb.
    pose proof (sumBlocks_nonneg bs Hbs) as Hnn.
    rewrite sumBlocks_app in Hsum. unfold sumBlocks at 2 in Hsum. simpl in Hsum.
    rewrite reverse_app, reverse_singleton. simpl.
    assert (Hstep : budgetBody maxRecent b st =
              mkSplit (b :: recentBlocks st) (olderBlocks st) (recentTokens st + tokens b)).
    { unfold budgetBody. rewrite Int64_add_exact
        by (unfold Int64.in_range, Int64.min_int, Int64.max_int in *; lia).
      by rewrite decide_False by lia. }
    rewrite Hstep, (IH Hbs); simpl; [|lia..].
    rewrite <-(assoc_L (++)). simpl. f_equal.
    rewrite sumBlocks_app. unfold sumBlocks at 3. simpl. lia.
Qed.

(** X9.  When the step-4 blocks weigh together no more than the budget
    (counts not negative), every one of them is recent and none is older. *)
Theorem budgetSplit_all_fit (toolBlocks : list messageBlock) :
  Forall (λ b, 0 ≤ tokens b) toolBlocks →
  sumBlocks toolBlocks ≤ maxRecent →
  maxRecent ≤ Int64.max_int →
  budgetSplit maxRecent toolBlocks = Ok (mkSplit toolBlocks [] (sumBlocks toolBlocks)).
Proof.
  intros Hbs Hsum Hmax. unfold budgetSplit. rewrite budgetLoop_foldl by lia.
  rewrite firstn_all, foldl_budgetBody_all_fit; simpl; [|done|lia..].
  by rewrite (right_id_L [] (++)).
Qed.

End BudgetFacts.

Section RenderFacts.
Import Schema Summarization.

(** X10.  The text handed to the summarizer depends on the messages of the
    older blocks in order, not on how they are grouped in blocks: it is the
    rendering of each message followed by a newline, message after message. *)
Theorem joinBlocks_flat (blocks : list messageBlock) :
  joinBlocks blocks =
  foldr (λ m acc, renderMsg m +:+ "
" +:+ acc) EmptyString (concat (msgs <$> blocks)).
Proof.
  unfold joinBlocks. induction blocks as [|b blocks IH]; [done|].
  rewrite fmap_cons. cbn [concat foldr]. by rewrite foldr_app, IH.
Qed.

(** X11.  [New] fails on a nil configuration and on a configuration without
    a model, whatever the compilation of the chain would give; every
    middleware it returns has positive thresholds, those of the configuration
    where they are positive and the defaults 2000 and 500 where they are zero
    or negative, and the default counter unless one is configured. *)
Theorem New_result (compile : string → ChatModel → result Summarizer) :
  New compile None = Err (errorString "config is nil") ∧
  (∀ cfg, Model cfg = None → New compile (Some cfg) = Err (errorString "model is required")) ∧
  (∀ cfg m, New compile (Some cfg) = Ok m →
     0 < maxBefore m ∧ 0 < maxRecent m ∧
     maxBefore m = (if decide (0 < MaxTokensBeforeSummary cfg)
                    then MaxTokensBeforeSummary cfg else 2000) ∧
     maxRecent m = (if decide (0 < MaxTokensForRecentMessages cfg)
                    then MaxTokensForRecentMessages cfg else 500) ∧
     counter m = default defaultCounterToken (Counter cfg)).
Proof.
  split; [done|]. split.
  - intros cfg Hmodel. unfold New. by rewrite Hmodel.
  - intros cfg m. unfold New.
    destruct (Model cfg); [|done]. destruct (compile _ _); [|done].
    intros [= <-]. simpl.
    unfold DefaultMaxTokensBeforeSummary, DefaultMaxTokensForRecentMessages.
    repeat case_decide; repeat split; lia.
Qed.

End RenderFacts.

Section OnlyUserMessages.
Import Schema Summarization.

Definition userMessage (p : MessagePtr) : Prop := ∃ u, p = Some u ∧ Role u = User.

Lemma splitUser_all_users fuel (messages : list MessagePtr) msgsToken idx ub :
  (length messages ≤ length msgsToken)%nat →
  Forall userMessage (drop idx messages) →
  (length messages - idx ≤ fuel)%nat →
  (idx ≤ length messages)%nat →
  ∃ ub', splitUser fuel messages msgsToken idx ub = Ok (ub', length messages).
Proof.
  intros Htok. revert idx ub. induction fuel as [|fuel IH]; intros idx ub Husers Hfuel Hidx.
  - exists ub. simpl. rewrite (lookup_ge_None_2 messages idx) by lia.
    do 2 f_equal. lia.
  - simpl. destruct (messages !! idx) as [p|] eqn:Hp.
    + pose proof (lookup_lt_Some _ _ _ Hp).
      rewrite (drop_S _ _ _ Hp) in Husers.
      apply Forall_cons in Husers as [(u & -> & Hu) Husers].
      rewrite decide_False by (intros Hne; by apply Hne).
      destruct (token_at messages msgsToken Htok _ _ Hp) as [t ->]. simpl.
      apply IH; [done|lia..].
    + exists ub. apply lookup_ge_None in Hp. do 2 f_equal. lia.
Qed.

(** A history of user messages only is one InitialUser block: there is no
    step-4 block. *)
Lemma splitMessages_only_users (messages : list MessagePtr) msgsToken :
  (length messages ≤ length msgsToken)%nat →
  Forall userMessage messages →
  ∃ bs, splitMessages messages msgsToken = Ok bs ∧ toolBlocks bs = [].
Proof.
  intros Htok Husers. unfold splitMessages.
  assert (Hsys : splitSystem messages msgsToken = Ok (zeroBlock, 0%nat)).
  { unfold splitSystem. destruct (messages !! 0%nat) as [p|] eqn:Hp; [|done].
    apply list_elem_of_lookup_2 in Hp.
    destruct (proj1 (Forall_forall _ _) Husers _ Hp) as (u & -> & Hu).
    rewrite decide_False; [done|]. rewrite Hu. discriminate. }
  rewrite Hsys. simpl.
  destruct (splitUser_all_users (length messages) messages msgsToken 0 zeroBlock)
    as [ub ->]; [done|done|lia..|]. simpl.
  unfold splitSummary. rewrite (lookup_ge_None_2 messages (length messages)) by lia. simpl.
  assert (Htools : splitTools (length messages) messages msgsToken (length messages) [] = Ok []).
  { destruct (length messages) eqn:Hn; simpl;
      rewrite <-?Hn, (lookup_ge_None_2 messages) by lia; done. }
  rewrite Htools. simpl. by eexists.
Qed.

(** X12.  A history that holds user messages only and counts above the
    threshold still invokes the summarizer, with nothing to summarize: all its
    messages are the InitialUser block, no block is older, and the text of the
    invocation is empty. *)
Theorem ProcessMessages_only_user_messages m (messages : list MessagePtr) msgsToken :
  messages ≠ [] →
  Forall (λ p, ∃ u, p = Some u ∧ Role u = User) messages →
  counter m messages = Ok msgsToken →
  length msgsToken = length messages →
  sumTokens msgsToken > maxBefore m →
  (ProcessMessages m messages).1 = [CounterCall messages; SummarizerInvoke EmptyString].
Proof.
  intros Hne Husers Hcount Hlen Hsum. unfold ProcessMessages.
  destruct (decide (length messages = 0%nat)); [by destruct messages|].
  rewrite Hcount. rewrite decide_False by lia. rewrite decide_False by lia.
  destruct (splitMessages_only_users messages msgsToken ltac:(lia) Husers)
    as (bs & -> & Hnone). simpl. rewrite Hnone. simpl.
  by destruct (summarizer m EmptyString).
Qed.

End OnlyUserMessages.

(** * Further properties of the session registry and the exchanges *)

Section Histories.
Import Schema Memory Agent AgentRun.
Context `{Store St}.

(** Every id of the registry maps to an object of the heap that carries this
    id: two ids never share a session. *)
Definition registry_inv (a : Agent St) : Prop :=
  ∀ sessionID session, sessions a !! sessionID = Some session →
    ∃ s, heap a !! session = Some s ∧ Agent.ID s = sessionID.

(** The registry as a map from the session id to the history. *)
Definition histories (a : Agent St) : gmap string (list MessagePtr) :=
  (λ session, messagesOf a session) <$> sessions a.

(** The history an exchange starts from: the one in memory, or else the one
    the store hands over. *)
Definition historyBefore (a : Agent St) (sessionID : string) : list MessagePtr :=
  default (loaded a sessionID) (histories a !! sessionID).

Lemma registry_inv_inj (a : Agent St) id1 id2 session :
  registry_inv a →
  sessions a !! id1 = Some session → sessions a !! id2 = Some session → id1 = id2.
Proof.
  intros Hinv H1 H2.
  destruct (Hinv _ _ H1) as (s1 & Hs1 & <-).
  destruct (Hinv _ _ H2) as (s2 & Hs2 & <-). congruence.
Qed.

Lemma GetSessionHistory_histories (a : Agent St) sessionID :
  registry_inv a →
  GetSessionHistory a sessionID =
  match histories a !! sessionID with
  | Some msgs => (Some msgs, true)
  | None => (None, false)
  end.
Proof.
  intros Hinv. unfold GetSessionHistory, histories. rewrite lookup_fmap.
  destruct (sessions a !! sessionID) as [session|] eqn:Hs; [|done]. simpl.
  destruct (Hinv _ _ Hs) as (s & Hheap & _). unfold messagesOf. rewrite Hheap.
  by rewrite copy_make.
Qed.

Lemma GetOrCreateSession_histories (a : Agent St) sessionID :
  registry_inv a →
  ∃ a1 session evs,
    GetOrCreateSession a sessionID = (a1, session, evs) ∧
    registry_inv a1 ∧
    sessions a1 !! sessionID = Some session ∧
    histories a1 = <[sessionID := historyBefore a sessionID]> (histories a) ∧
    memoryStore a1 = memoryStore a.
Proof.
  intros Hinv. unfold historyBefore, histories. rewrite lookup_fmap.
  destruct (sessions a !! sessionID) as [session|] eqn:Hs.
  - rewrite (GetOrCreateSession_existing _ _ _ Hs). exists a, session, [].
    split; [done|]. split; [done|]. split; [done|]. split; [|done]. simpl.
    symmetry. apply insert_id. by rewrite lookup_fmap, Hs.
  - destruct (GetOrCreateSession_new _ _ Hs) as (evs & -> & _).
    eexists _, _, _. split; [reflexivity|]. simpl.
    split; [|split; [|split; [|done]]].
    + intros id l. simpl. rewrite lookup_insert. case_decide as Hid.
      * intros [= <-]. rewrite lookup_app_r, Nat.sub_diag by lia. subst. by eexists.
      * intros Hl. destruct (Hinv _ _ Hl) as (s & Hsl & Hid').
        exists s. split; [by apply lookup_app_l_Some|done].
    + by rewrite lookup_insert_eq.
    + apply map_eq. intros id. rewrite lookup_fmap. simpl.
      rewrite !lookup_insert. case_decide as Hid.
      * simpl. unfold messagesOf. simpl.
        by rewrite lookup_app_r, Nat.sub_diag by lia.
      * rewrite lookup_fmap. destruct (sessions a !! id) as [l|] eqn:Hl; [|done]. simpl.
        destruct (Hinv _ _ Hl) as (s & Hsl & _). unfold messagesOf. simpl.
        by rewrite (lookup_app_l_Some _ _ _ _ Hsl), Hsl.
Qed.

Lemma appendMessage_histories (a : Agent St) sessionID session message :
  registry_inv a →
  sessions a !! sessionID = Some session →
  registry_inv (appendMessage a session message) ∧
  sessions (appendMessage a session message) = sessions a ∧
  histories (appendMessage a session message) =
    alter (λ msgs, msgs ++ [message]) sessionID (histories a) ∧
  memoryStore (appendMessage a session message) = memoryStore a.
Proof.
  intros Hinv Hs. repeat split.
  - intros id l Hl. simpl in *. destruct (Hinv _ _ Hl) as (s & Hsl & Hid).
    rewrite list_lookup_alter. case_decide; subst; rewrite Hsl; by eexists.
  - apply map_eq. intros id. unfold histories. simpl.
    rewrite lookup_alter, !lookup_fmap. case_decide as Hid.
    + subst id. rewrite Hs. simpl. f_equal.
      destruct (Hinv _ _ Hs) as (s & Hsl & _). unfold messagesOf. simpl.
      by rewrite list_lookup_alter_eq, Hsl.
    + destruct (sessions a !! id) as [l|] eqn:Hl; [|done]. simpl. f_equal.
      unfold messagesOf. simpl. rewrite list_lookup_alter_ne; [done|].
      intros <-. apply Hid. by apply (registry_inv_inj a _ _ session).
Qed.

Lemma setMessages_histories (a : Agent St) sessionID session msgs :
  registry_inv a →
  sessions a !! sessionID = Some session →
  registry_inv (ReactAgent.setMessages a session msgs) ∧
  sessions (ReactAgent.setMessages a session msgs) = sessions a ∧
  histories (ReactAgent.setMessages a session msgs) = <[sessionID := msgs]> (histories a) ∧
  memoryStore (ReactAgent.setMessages a session msgs) = memoryStore a.
Proof.
  intros Hinv Hs. repeat split.
  - intros id l Hl. simpl in *. destruct (Hinv _ _ Hl) as (s & Hsl & Hid).
    rewrite list_lookup_alter. case_decide; subst; rewrite Hsl; by eexists.
  - apply map_eq. intros id. unfold histories. simpl.
    rewrite lookup_insert, !lookup_fmap. case_decide as Hid.
    + subst id. rewrite Hs. simpl. f_equal.
      destruct (Hinv _ _ Hs) as (s & Hsl & _). unfold messagesOf. simpl.
      by rewrite list_lookup_alter_eq, Hsl.
    + destruct (sessions a !! id) as [l|] eqn:Hl; [|done]. simpl. f_equal.
      unfold messagesOf. simpl. rewrite list_lookup_alter_ne; [done|].
      intros <-. apply Hid. by apply (registry_inv_inj a _ _ session).
Qed.

Lemma persistSession_histories (a : Agent St) sessionID msgs :
  registry_inv a →
  registry_inv (persistSession a sessionID msgs) ∧
  sessions (persistSession a sessionID msgs) = sessions a ∧
  histories (persistSession a sessionID msgs) = histories a ∧
  memoryStore (persistSession a sessionID msgs) =
    (λ store, (Write store sessionID msgs).1) <$> memoryStore a.
Proof.
  intros Hinv. unfold persistSession.
  destruct (memoryStore a) eqn:Hm; repeat split; first [exact Hinv | by rewrite Hm].
Qed.

Lemma ClearSession_histories (a : Agent St) sessionID :
  registry_inv a →
  registry_inv (ClearSession a sessionID) ∧
  histories (ClearSession a sessionID) = delete sessionID (histories a) ∧
  memoryStore (ClearSession a sessionID) = memoryStore a.
Proof.
  intros Hinv. repeat split.
  - intros id l. simpl. rewrite lookup_delete. case_decide; [done|]. apply Hinv.
  - unfold histories. simpl. by rewrite fmap_delete.
Qed.

Lemma AppendAssistantMessage_histories (a : Agent St) sessionID message :
  registry_inv a →
  registry_inv (AppendAssistantMessage a sessionID message) ∧
  histories (AppendAssistantMessage a sessionID message) =
    alter (λ msgs, msgs ++ [message]) sessionID (histories a) ∧
  memoryStore (AppendAssistantMessage a sessionID message) = memoryStore a.
Proof.
  intros Hinv. unfold AppendAssistantMessage.
  destruct (sessions a !! sessionID) as [session|] eqn:Hs.
  - destruct (appendMessage_histories a sessionID session message Hinv Hs)
      as (Hinv' & _ & Hh & Hm). done.
  - repeat split; [done|]. symmetry. apply map_eq. intros id.
    rewrite lookup_alter. case_decide; [|done]. subst.
    unfold histories. by rewrite lookup_fmap, Hs.
Qed.

(** The history of the session an exchange works on. *)
Lemma messagesOf_histories (a : Agent St) sessionID session msgs :
  sessions a !! sessionID = Some session →
  histories a !! sessionID = Some msgs →
  messagesOf a session = msgs.
Proof.
  unfold histories. rewrite lookup_fmap. intros ->. simpl. congruence.
Qed.

End Histories.

Section Exchanges.
Import Schema Memory Agent AgentRun.
Context `{Store St}.

(** The start of an exchange: the session is found or created and the user
    message appended to its history. *)
Lemma exchange_start (a : Agent St) sessionID message :
  registry_inv a →
  ∃ a1 session evs,
    GetOrCreateSession a sessionID = (a1, session, evs) ∧
    registry_inv (appendMessage a1 session message) ∧
    sessions (appendMessage a1 session message) !! sessionID = Some session ∧
    histories (appendMessage a1 session message) =
      <[sessionID := historyBefore a sessionID ++ [message]]> (histories a) ∧
    memoryStore (appendMessage a1 session message) = memoryStore a.
Proof.
  intros Hinv.
  destruct (GetOrCreateSession_histories a sessionID Hinv)
    as (a1 & session & evs & Hcall & Hinv1 & Hs1 & Hh1 & Hm1).
  destruct (appendMessage_histories a1 sessionID session message Hinv1 Hs1)
    as (Hinv2 & Hs2 & Hh2 & Hm2).
  exists a1, session, evs. split; [done|]. split; [done|].
  split; [by rewrite Hs2|]. split; [|congruence].
  by rewrite Hh2, Hh1, alter_insert_eq.
Qed.

(** One more message on the session of the exchange. *)
Lemma exchange_append (a : Agent St) sessionID session msgs message :
  registry_inv a →
  sessions a !! sessionID = Some session →
  histories a !! sessionID = Some msgs →
  registry_inv (appendMessage a session message) ∧
  sessions (appendMessage a session message) !! sessionID = Some session ∧
  histories (appendMessage a session message) =
    <[sessionID := msgs ++ [message]]> (histories a) ∧
  memoryStore (appendMessage a session message) = memoryStore a.
Proof.
  intros Hinv Hs Hh.
  destruct (appendMessage_histories a sessionID session message Hinv Hs)
    as (Hinv2 & Hs2 & Hh2 & Hm2).
  split; [done|]. split; [by rewrite Hs2|]. split; [|done].
  rewrite Hh2. apply map_eq. intros id. rewrite lookup_alter, lookup_insert.
  case_decide; [|done]. subst. by rewrite Hh.
Qed.

(** What [GetSessionHistory] returns once the histories are known. *)
Lemma GetSessionHistory_insert (a a' : Agent St) sessionID msgs :
  registry_inv a → registry_inv a' →
  histories a' = <[sessionID := msgs]> (histories a) →
  GetSessionHistory a' sessionID = (Some msgs, true) ∧
  ∀ other, other ≠ sessionID → GetSessionHistory a' other = GetSessionHistory a other.
Proof.
  intros Hinv Hinv' Hh. split.
  - by rewrite (GetSessionHistory_histories a' _ Hinv'), Hh, lookup_insert_eq.
  - intros other Hne.
    rewrite (GetSessionHistory_histories a' _ Hinv'), (GetSessionHistory_histories a _ Hinv), Hh.
    by rewrite lookup_insert_ne.
Qed.

Lemma lastResponse_foldl (events : list AgentEvent) (response : MessagePtr) :
  foldl (λ response event,
           match EventErr event with
           | Some _ => response
           | None =>
               match MessageOutput event with
               | Some output =>
                   match GetMessage output with
                   | (Some msg, None) => Some msg
                   | _ => response
                   end
               | None => response
               end
           end) response events =
  match last (omap (λ event,
                 match EventErr event, MessageOutput event with
                 | None, Some output =>
                     match GetMessage output with
                     | (Some msg, None) => Some msg
                     | _ => None
                     end
                 | _, _ => None
                 end) events) with
  | Some msg => Some msg
  | None => response
  end.
Proof.
  revert response. induction events as [|event events IH]; intros response; [done|].
  cbn [foldl omap]. rewrite IH. clear IH.
  destruct event as [[err|] [[streaming message stream [[msg|] [err'|]]]|]]; cbn; try done.
  rewrite last_cons. by destruct (last _).
Qed.

(** X13.  The response of [Chat] is the message of the last event of the
    runner that carries no error and whose message is read without an error
    and is not nil; events with an error, without output or whose message
    cannot be read are passed over. *)
Theorem lastResponse_is_last (events : list AgentEvent) :
  lastResponse events =
  last (omap (λ event,
          match EventErr event, MessageOutput event with
          | None, Some output =>
              match GetMessage output with
              | (Some msg, None) => Some msg
              | _ => None
              end
          | _, _ => None
          end) events).
Proof.
  unfold lastResponse. rewrite lastResponse_foldl. by destruct (last _).
Qed.

(** The steps of [Chat] on the registry, with and without a response. *)
Lemma Chat_steps (events : list AgentEvent) (a : Agent St) (sessionID userMessage : string) :
  registry_inv a →
  let asked := historyBefore a sessionID ++ [Some (UserMessage userMessage)] in
  ∃ a',
    registry_inv a' ∧
    match lastResponse events with
    | Some response =>
        Chat events a sessionID userMessage = (a', Ok (Some response)) ∧
        histories a' = <[sessionID := asked ++ [Some response]]> (histories a) ∧
        memoryStore a' =
          (λ store, (Write store sessionID (asked ++ [Some response])).1) <$> memoryStore a
    | None =>
        Chat events a sessionID userMessage =
          (a', Err (errorString "no assistant response received")) ∧
        histories a' = <[sessionID := asked]> (histories a) ∧
        memoryStore a' = memoryStore a
    end.
Proof.
  intros Hinv asked. unfold Chat.
  destruct (exchange_start a sessionID (Some (UserMessage userMessage)) Hinv)
    as (a1 & session & evs & -> & Hinv2 & Hs2 & Hh2 & Hm2).
  destruct (lastResponse events) as [response|]; [|by eexists].
  set (a2 := appendMessage a1 session (Some (UserMessage userMessage))) in *.
  destruct (exchange_append a2 sessionID session asked (Some response) Hinv2 Hs2)
    as (Hinv3 & Hs3 & Hh3 & Hm3).
  { by rewrite Hh2, lookup_insert_eq. }
  set (a3 := appendMessage a2 session (Some response)) in *.
  rewrite Hh2, insert_insert_eq in Hh3.
  assert (Hmsgs : messagesOf a3 session = asked ++ [Some response]).
  { apply (messagesOf_histories a3 sessionID); [done|]. by rewrite Hh3, lookup_insert_eq. }
  rewrite Hmsgs.
  destruct (persistSession_histories a3 sessionID (asked ++ [Some response]) Hinv3)
    as (Hinv4 & Hs4 & Hh4 & Hm4).
  eexists. split; [exact Hinv4|]. split; [reflexivity|].
  split; [by rewrite Hh4|]. rewrite Hm4. congruence.
Qed.

(** X14.  An exchange that gets a response adds the user message and the
    response, in this order, to the history of its session (the one in memory
    or, for a session not in memory, the one loaded from the store), writes
    the whole history to the store and leaves the other sessions as they
    were. *)
Theorem Chat_success (events : list AgentEvent) (a : Agent St)
    (sessionID userMessage : string) (response : Schema.Message) :
  registry_inv a →
  lastResponse events = Some response →
  let history := historyBefore a sessionID ++
                 [Some (UserMessage userMessage); Some response] in
  ∃ a',
    Chat events a sessionID userMessage = (a', Ok (Some response)) ∧
    registry_inv a' ∧
    GetSessionHistory a' sessionID = (Some history, true) ∧
    (∀ other, other ≠ sessionID →
       GetSessionHistory a' other = GetSessionHistory a other) ∧
    memoryStore a' = (λ store, (Write store sessionID history).1) <$> memoryStore a.
Proof.
  intros Hinv Hresp history. unfold Chat.
  destruct (exchange_start a sessionID (Some (UserMessage userMessage)) Hinv)
    as (a1 & session & evs & -> & Hinv2 & Hs2 & Hh2 & Hm2).
  rewrite Hresp.
  set (a2 := appendMessage a1 session (Some (UserMessage userMessage))) in *.
  destruct (exchange_append a2 sessionID session
              (historyBefore a sessionID ++ [Some (UserMessage userMessage)])
              (Some response) Hinv2 Hs2)
    as (Hinv3 & Hs3 & Hh3 & Hm3).
  { by rewrite Hh2, lookup_insert_eq. }
  set (a3 := appendMessage a2 session (Some response)) in *.
  rewrite Hh2, insert_insert_eq, <-(assoc_L (++)) in Hh3. simpl in Hh3.
  assert (Hmsgs : messagesOf a3 session = history).
  { apply (messagesOf_histories a3 sessionID); [done|]. by rewrite Hh3, lookup_insert_eq. }
  rewrite Hmsgs.
  destruct (persistSession_histories a3 sessionID history Hinv3)
    as (Hinv4 & Hs4 & Hh4 & Hm4).
  eexists. split; [reflexivity|]. split; [done|].
  rewrite Hh3 in Hh4.
  destruct (GetSessionHistory_insert a _ sessionID history Hinv Hinv4 Hh4) as [Hget Hframe].
  split; [done|]. split; [done|]. rewrite Hm4. congruence.
Qed.

(** X15.  An exchange without a response fails with the error
    [no assistant response received]; the user message stays in the history of
    the session in memory, and nothing is written to the store. *)
Theorem Chat_no_response (events : list AgentEvent) (a : Agent St)
    (sessionID userMessage : string) :
  registry_inv a →
  lastResponse events = None →
  ∃ a',
    Chat events a sessionID userMessage =
      (a', Err (errorString "no assistant response received")) ∧
    registry_inv a' ∧
    GetSessionHistory a' sessionID =
      (Some (historyBefore a sessionID ++ [Some (UserMessage userMessage)]), true) ∧
    (∀ other, other ≠ sessionID →
       GetSessionHistory a' other = GetSessionHistory a other) ∧
    memoryStore a' = memoryStore a.
Proof.
  intros Hinv Hresp. unfold Chat.
  destruct (exchange_start a sessionID (Some (UserMessage userMessage)) Hinv)
    as (a1 & session & evs & -> & Hinv2 & Hs2 & Hh2 & Hm2).
  rewrite Hresp. eexists. split; [reflexivity|]. split; [done|].
  destruct (GetSessionHistory_insert a _ sessionID _ Hinv Hinv2 Hh2) as [Hget Hframe].
  done.
Qed.

(** The steps of [ChatStream] on the registry. *)
Lemma ChatStream_steps (events : list AgentEvent) (a : Agent St)
    (sessionID userMessage : string) :
  registry_inv a →
  let history := historyBefore a sessionID ++ [Some (UserMessage userMessage)] in
  ∃ a',
    ChatStream events a sessionID userMessage = (a', forwarded events) ∧
    registry_inv a' ∧
    histories a' = <[sessionID := history]> (histories a) ∧
    memoryStore a' = (λ store, (Write store sessionID history).1) <$> memoryStore a.
Proof.
  intros Hinv history. unfold ChatStream.
  destruct (exchange_start a sessionID (Some (UserMessage userMessage)) Hinv)
    as (a1 & session & evs & -> & Hinv2 & Hs2 & Hh2 & Hm2).
  set (a2 := appendMessage a1 session (Some (UserMessage userMessage))) in *.
  assert (Hmsgs : messagesOf a2 session = history).
  { apply (messagesOf_histories a2 sessionID); [done|]. by rewrite Hh2, lookup_insert_eq. }
  rewrite Hmsgs.
  destruct (persistSession_histories a2 sessionID history Hinv2)
    as (Hinv3 & Hs3 & Hh3 & Hm3).
  eexists. split; [reflexivity|]. split; [done|].
  split; [by rewrite Hh3|]. rewrite Hm3. congruence.
Qed.

(** X16.  [ChatStream] adds the user message to the history of the session
    and writes that history to the store, whatever the runner yields; the
    stream it returns delivers the messages the events forward, and the other
    sessions are as they were. *)
Theorem ChatStream_persists_user_message (events : list AgentEvent) (a : Agent St)
    (sessionID userMessage : string) :
  registry_inv a →
  let history := historyBefore a sessionID ++ [Some (UserMessage userMessage)] in
  ∃ a',
    ChatStream events a sessionID userMessage = (a', forwarded events) ∧
    registry_inv a' ∧
    GetSessionHistory a' sessionID = (Some history, true) ∧
    (∀ other, other ≠ sessionID →
       GetSessionHistory a' other = GetSessionHistory a other) ∧
    memoryStore a' = (λ store, (Write store sessionID history).1) <$> memoryStore a.
Proof.
  intros Hinv history. unfold ChatStream.
  destruct (exchange_start a sessionID (Some (UserMessage userMessage)) Hinv)
    as (a1 & session & evs & -> & Hinv2 & Hs2 & Hh2 & Hm2).
  set (a2 := appendMessage a1 session (Some (UserMessage userMessage))) in *.
  assert (Hmsgs : messagesOf a2 session = history).
  { apply (messagesOf_histories a2 sessionID); [done|]. by rewrite Hh2, lookup_insert_eq. }
  rewrite Hmsgs.
  destruct (persistSession_histories a2 sessionID history Hinv2)
    as (Hinv3 & Hs3 & Hh3 & Hm3).
  eexists. split; [reflexivity|]. split; [done|].
  rewrite Hh2 in Hh3.
  destruct (GetSessionHistory_insert a _ sessionID history Hinv Hinv3 Hh3) as [Hget Hframe].
  split; [done|]. split; [done|]. rewrite Hm3. congruence.
Qed.

(** X17.  [AppendAssistantMessage] appends the message to the history of the
    session of that id and to no other; the store is not written. *)
Theorem AppendAssistantMessage_appends (a : Agent St) (sessionID : string)
    (message : MessagePtr) (msgs : list MessagePtr) :
  registry_inv a →
  GetSessionHistory a sessionID = (Some msgs, true) →
  GetSessionHistory (AppendAssistantMessage a sessionID message) sessionID =
    (Some (msgs ++ [message]), true) ∧
  (∀ other, other ≠ sessionID →
     GetSessionHistory (AppendAssistantMessage a sessionID message) other =
     GetSessionHistory a other) ∧
  memoryStore (AppendAssistantMessage a sessionID message) = memoryStore a.
Proof.
  intros Hinv Hget.
  destruct (AppendAssistantMessage_histories a sessionID message Hinv) as (Hinv' & Hh & Hm).
  rewrite (GetSessionHistory_histories a _ Hinv) in Hget.
  destruct (histories a !! sessionID) as [msgs'|] eqn:Hmsgs; [|done].
  injection Hget as ->.
  split; [|split; [|done]].
  - by rewrite (GetSessionHistory_histories _ _ Hinv'), Hh, lookup_alter_eq, Hmsgs.
  - intros other Hne.
    rewrite (GetSessionHistory_histories _ _ Hinv'), (GetSessionHistory_histories a _ Hinv), Hh.
    by rewrite lookup_alter_ne.
Qed.

End Exchanges.

Section StreamedResponse.
Import Memory Agent AgentRun Api.
Context `{Store St}.

Variables (modelName completionID : string) (created : Z).

Lemma string_app_nil_r (s : string) : s +:+ EmptyString = s.
Proof.
  induction s as [|c s IH]; [done|].
  change (String c (s +:+ EmptyString) = String c s). by rewrite IH.
Qed.

Lemma string_app_assoc (s1 s2 s3 : string) : (s1 +:+ s2) +:+ s3 = s1 +:+ (s2 +:+ s3).
Proof.
  induction s1 as [|c s1 IH]; [done|].
  change (String c ((s1 +:+ s2) +:+ s3) = String c (s1 +:+ (s2 +:+ s3))). by rewrite IH.
Qed.

(** The contents of the chunks, one after the other. *)
Definition contents (chunks : list Schema.Message) : string :=
  foldr (λ chunk acc, Schema.Content chunk +:+ acc) EmptyString chunks.

(** The event published for a chunk of content. *)
Definition deltaEvent (chunk : Schema.Message) : OpenAIStreamEvent :=
  chunkEvent modelName completionID created
    {| Index := 0; Message := None;
       Delta := Some {| Role := EmptyString; Content := Schema.Content chunk |};
       FinishReason := EmptyString |}.

Lemma streamContent_foldl (chunks : list Schema.Message) fullContent sent :
  foldl (λ '(fullContent, sent) chunk,
           if decide (Schema.Content chunk ≠ EmptyString) then
             (fullContent +:+ Schema.Content chunk, sent ++ [deltaEvent chunk])
           else (fullContent, sent))
    (fullContent, sent) chunks =
  (fullContent +:+ contents chunks,
   sent ++ (deltaEvent <$> filter (λ chunk, Schema.Content chunk ≠ EmptyString) chunks)).
Proof.
  revert fullContent sent. induction chunks as [|chunk chunks IH]; intros fullContent sent.
  - simpl. by rewrite string_app_nil_r, (right_id_L [] (++)).
  - cbn [foldl]. unfold contents. cbn [foldr]. fold (contents chunks).
    destruct (decide (Schema.Content chunk ≠ EmptyString)) as [Hne|Heq].
    + rewrite IH, filter_cons_True by done.
      by rewrite string_app_assoc, fmap_cons, <-(assoc_L (++)).
    + rewrite IH, filter_cons_False by done.
      apply dec_stable in Heq. by rewrite Heq.
Qed.

Lemma streamContent_spec (chunks : list Schema.Message) :
  streamContent modelName completionID created chunks =
  (contents chunks,
   deltaEvent <$> filter (λ chunk, Schema.Content chunk ≠ EmptyString) chunks).
Proof. exact (streamContent_foldl chunks EmptyString []). Qed.

(** X18.  A streamed exchange publishes the role event, one content event
    for each chunk that is not empty, in the order of the chunks, and the
    event that finishes with [stop].  It leaves in the history of the session
    the user message and then one assistant message whose content is the
    contents of the chunks put together; the store holds the history up to the
    user message: the streamed reply is appended in memory only. *)
Theorem handleStreamResponse_history (events : list AgentEvent) (a : Agent St)
    (sessionID userMessage : string) :
  registry_inv a →
  let stream := forwarded events in
  let asked := historyBefore a sessionID ++ [Some (Schema.UserMessage userMessage)] in
  ∃ a',
    handleStreamResponse modelName completionID created events a sessionID userMessage =
      (a',
       [chunkEvent modelName completionID created
          {| Index := 0; Message := None;
             Delta := Some {| Role := "assistant"; Content := EmptyString |};
             FinishReason := EmptyString |}] ++
       (deltaEvent <$> filter (λ chunk, Schema.Content chunk ≠ EmptyString) stream) ++
       [chunkEvent modelName completionID created
          {| Index := 0; Message := None; Delta := None; FinishReason := "stop" |}]) ∧
    GetSessionHistory a' sessionID =
      (Some (asked ++ [Some (AssistantMessage (contents stream))]), true) ∧
    (∀ other, other ≠ sessionID →
       GetSessionHistory a' other = GetSessionHistory a other) ∧
    memoryStore a' = (λ store, (Write store sessionID asked).1) <$> memoryStore a.
Proof.
  intros Hinv stream asked. unfold handleStreamResponse.
  destruct (ChatStream_steps events a sessionID userMessage Hinv)
    as (a1 & -> & Hinv1 & Hh1 & Hm1).
  rewrite streamContent_spec.
  destruct (AppendAssistantMessage_histories a1 sessionID
              (Some (AssistantMessage (contents (forwarded events)))) Hinv1)
    as (Hinv2 & Hh2 & Hm2).
  eexists. split; [reflexivity|].
  rewrite Hh1, alter_insert_eq in Hh2.
  destruct (GetSessionHistory_insert a _ sessionID _ Hinv Hinv2 Hh2) as [Hget Hframe].
  split; [done|]. split; [done|]. by rewrite Hm2, Hm1.
Qed.

End StreamedResponse.

Section Reachable.
Import Schema Memory Agent AgentRun.
Context `{Store St}.

(** The agents that the operations of the registry and the exchanges make
    from a new agent ([sessions: make(map[string]*Session)]). *)
Inductive reachable : Agent St → Prop :=
  | reachable_new store :
      reachable {| sessions := ∅; heap := []; memoryStore := store |}
  | reachable_GetOrCreateSession a sessionID :
      reachable a → reachable (GetOrCreateSession a sessionID).1.1
  | reachable_ClearSession a sessionID :
      reachable a → reachable (ClearSession a sessionID)
  | reachable_AppendAssistantMessage a sessionID message :
      reachable a → reachable (AppendAssistantMessage a sessionID message)
  | reachable_Chat events a sessionID userMessage :
      reachable a → reachable (Chat events a sessionID userMessage).1
  | reachable_ChatStream events a sessionID userMessage :
      reachable a → reachable (ChatStream events a sessionID userMessage).1.

(** X19.  In every agent the operations can reach, each session id of the
    registry maps to a session object of its own that carries this id: no two
    ids share a history, and no operation leaves an id without its object. *)
Theorem reachable_registry_inv (a : Agent St) :
  reachable a →
  ∀ sessionID session, sessions a !! sessionID = Some session →
    ∃ s, heap a !! session = Some s ∧ Agent.ID s = sessionID.
Proof.
  intros Hreach. change (registry_inv a).
  induction Hreach as [store|a id _ IH|a id _ IH|a id msg _ IH|evs a id u _ IH|evs a id u _ IH].
  - intros id l. simpl. by rewrite lookup_empty.
  - destruct (GetOrCreateSession_histories a id IH) as (a1 & l & evs & -> & Hinv & _). done.
  - by destruct (ClearSession_histories a id IH).
  - by destruct (AppendAssistantMessage_histories a id msg IH).
  - destruct (Chat_steps evs a id u IH) as (a' & Hinv & Hcase).
    destruct (lastResponse evs); destruct Hcase as (-> & _); done.
  - destruct (ChatStream_steps evs a id u IH) as (a' & -> & Hinv & _).
    done.
Qed.

End Reachable.

Section ClearAndReload.
Import Schema Memory Agent AgentRun.

Lemma InMemoryStore_read_written (store : InMemoryStore) sessionID (msgs : list MessagePtr) :
  Read (Write store sessionID msgs).1 sessionID = (Some msgs, None).
Proof.
  change (Write store sessionID msgs) with (InMemoryStore_Write store sessionID msgs).
  rewrite InMemoryStore_Write_ok. cbn -[copy make].
  unfold InMemoryStore_Read. cbn -[copy make].
  rewrite lookup_insert_eq. by rewrite copy_make.
Qed.

Lemma loaded_written (a : Agent InMemoryStore) store sessionID (msgs : list MessagePtr) :
  memoryStore a = Some (Write store sessionID msgs).1 →
  loaded a sessionID = msgs.
Proof. unfold loaded. intros ->. by rewrite InMemoryStore_read_written. Qed.

(** X20.  [ClearSession] drops the session from memory and leaves the store;
    on the in-memory store, the next [GetOrCreateSession] for the id brings
    back the history as the last completed exchange wrote it. *)
Theorem Chat_ClearSession_reload (events : list AgentEvent) (a : Agent InMemoryStore)
    (store : InMemoryStore) (sessionID userMessage : string) (response : Schema.Message) :
  registry_inv a →
  memoryStore a = Some store →
  lastResponse events = Some response →
  let history := historyBefore a sessionID ++
                 [Some (UserMessage userMessage); Some response] in
  let cleared := ClearSession (Chat events a sessionID userMessage).1 sessionID in
  GetSessionHistory cleared sessionID = (None, false) ∧
  GetSessionHistory (GetOrCreateSession cleared sessionID).1.1 sessionID =
    (Some history, true).
Proof.
  intros Hinv Hstore Hresp history cleared.
  destruct (Chat_steps events a sessionID userMessage Hinv) as (a1 & Hinv1 & Hcase).
  rewrite Hresp in Hcase. destruct Hcase as (Hchat & Hh1 & Hm1).
  rewrite <-(assoc_L (++)) in Hh1, Hm1. simpl in Hh1, Hm1. fold history in Hh1, Hm1.
  subst cleared. rewrite Hchat. simpl.
  destruct (ClearSession_histories a1 sessionID Hinv1) as (Hinv2 & Hh2 & Hm2).
  split.
  - by rewrite (GetSessionHistory_histories _ _ Hinv2), Hh2, lookup_delete_eq.
  - destruct (GetOrCreateSession_histories (ClearSession a1 sessionID) sessionID Hinv2)
      as (a3 & l & evs & -> & Hinv3 & _ & Hh3 & _). simpl.
    rewrite (GetSessionHistory_histories _ _ Hinv3), Hh3, lookup_insert_eq.
    unfold historyBefore. rewrite Hh2, lookup_delete_eq.
    change ((Some (loaded (ClearSession a1 sessionID) sessionID), true) =
            (Some history, true)).
    do 2 f_equal. apply (loaded_written _ store). by rewrite Hm2, Hm1, Hstore.
Qed.

End ClearAndReload.

(** * Further properties: the history limits and the stores *)

Section HistoryLimits.
Import Schema Memory Agent AgentRun.

Lemma wrap_double (MaxHistory : Z) :
  0 ≤ MaxHistory < 2 ^ 62 → Int64.wrap (MaxHistory * 2) = MaxHistory * 2.
Proof.
  intros Hmax. apply Int64_wrap_small.
  unfold Int64.in_range, Int64.min_int, Int64.max_int. lia.
Qed.

Lemma wrap_length_diff (n : nat) (limit : Z) :
  0 ≤ limit < 2 ^ 63 → Z.of_nat n < 2 ^ 63 →
  Int64.wrap (Z.of_nat n - limit) = Z.of_nat n - limit.
Proof.
  intros Hlimit Hn. apply Int64_wrap_small.
  unfold Int64.in_range, Int64.min_int, Int64.max_int. lia.
Qed.

(** X21.  For a limit of [MaxHistory] rounds that the doubling does not
    overflow, the history-limit middleware never fails and keeps the last
    [2 * MaxHistory] messages, all of them when there are no more: what it
    returns is a suffix of the list, in order, of at most that length. *)
Theorem BeforeChatModel_keeps_last (MaxHistory : Z) (messages : list MessagePtr) :
  0 < MaxHistory < 2 ^ 62 →
  Z.of_nat (length messages) < 2 ^ 63 →
  BeforeChatModel MaxHistory messages =
    Ok (drop (length messages - Z.to_nat (2 * MaxHistory)) messages) ∧
  length (drop (length messages - Z.to_nat (2 * MaxHistory)) messages) =
    Nat.min (length messages) (Z.to_nat (2 * MaxHistory)).
Proof.
  intros Hmax Hlen. split; [|rewrite length_drop; lia].
  unfold BeforeChatModel. rewrite wrap_double by lia.
  case_decide as Hlong.
  - rewrite wrap_length_diff by lia. rewrite decide_True by lia.
    do 2 f_equal. lia.
  - replace (length messages - Z.to_nat (2 * MaxHistory))%nat with 0%nat by lia. done.
Qed.

(** The history the ReAct agent keeps: the first message and the last
    [2 * MaxHistory] when the list is longer than [2 * MaxHistory + 1]. *)
Definition truncated (MaxHistory : Z) (messages : list MessagePtr) : list MessagePtr :=
  if decide (0 < MaxHistory ∧ 2 * MaxHistory + 1 < Z.of_nat (length messages))
  then take 1 messages ++ drop (length messages - Z.to_nat (2 * MaxHistory)) messages
  else messages.

Lemma limitHistory_truncated (MaxHistory : Z) (messages : list MessagePtr) :
  MaxHistory < 2 ^ 62 →
  Z.of_nat (length messages) < 2 ^ 63 →
  ReactAgent.limitHistory MaxHistory messages = Ok (truncated MaxHistory messages).
Proof.
  intros Hmax Hlen. unfold ReactAgent.limitHistory, truncated.
  destruct (decide (0 < MaxHistory)) as [Hpos|Hneg].
  - unfold Int64.add. rewrite wrap_double by lia.
    rewrite (Int64_wrap_small (MaxHistory * 2 + 1))
      by (unfold Int64.in_range, Int64.min_int, Int64.max_int; lia).
    destruct (decide (2 * MaxHistory + 1 < Z.of_nat (length messages))) as [Hlong|Hshort].
    + rewrite decide_True by lia. rewrite decide_True by lia.
      destruct messages as [|first rest]; [simpl in Hlong; lia|].
      cbn [index lookup list_lookup mbind result_bind].
      rewrite wrap_length_diff by lia. rewrite decide_True by lia.
      do 2 f_equal. f_equal. lia.
    + rewrite decide_False by lia. by rewrite decide_False by lia.
  - rewrite decide_False by lia. by rewrite decide_False by lia.
Qed.

(** X22.  The history limit of the ReAct agent (for a [MaxHistory] the
    doubling does not overflow) never fails; it returns the list as it is when
    the limit is off or the list has at most [2 * MaxHistory + 1] messages, and
    else the first message followed by the last [2 * MaxHistory]: the first
    message always stays first and the result has at most
    [2 * MaxHistory + 1] messages when the limit is on. *)
Theorem limitHistory_keeps_first (MaxHistory : Z) (messages : list MessagePtr) :
  MaxHistory < 2 ^ 62 →
  Z.of_nat (length messages) < 2 ^ 63 →
  ∃ kept,
    ReactAgent.limitHistory MaxHistory messages = Ok kept ∧
    kept = truncated MaxHistory messages ∧
    head kept = head messages ∧
    (0 < MaxHistory → Z.of_nat (length kept) ≤ 2 * MaxHistory + 1) ∧
    (MaxHistory ≤ 0 → kept = messages).
Proof.
  intros Hmax Hlen. exists (truncated MaxHistory messages).
  split; [by apply limitHistory_truncated|]. split; [done|].
  unfold truncated. case_decide as Hcase.
  - destruct Hcase as [Hpos Hlong]. split; [|split; [|lia]].
    + destruct messages; [simpl in Hlong; lia|done].
    + intros _. rewrite length_app, length_take, length_drop. lia.
  - split; [done|]. split; [lia|done].
Qed.

End HistoryLimits.

Section ReactExchange.
Import Schema Memory Agent AgentRun.
Context `{Store St}.

(** X23.  An exchange of the ReAct agent.  The history it sends to
    [Generate] is the history of the session, started with the system prompt
    when it was empty and a prompt is configured, with the user message
    appended, cut to the history limit.  When [Generate] answers, that history
    followed by the answer becomes the history of the session and is written
    to the store; when it fails, the error is wrapped, the history sent stays
    in memory and nothing is written.  Other sessions are not touched. *)
Theorem ReactAgent_Chat_exchange (config : ReactAgent.Config)
    (Generate : list MessagePtr → result MessagePtr) (a : Agent St)
    (sessionID userMessage : string) :
  registry_inv a →
  ReactAgent.MaxHistory config < 2 ^ 62 →
  Z.of_nat (length (historyBefore a sessionID)) + 2 < 2 ^ 63 →
  let start :=
    if decide (length (historyBefore a sessionID) = 0%nat ∧
               ReactAgent.SystemPrompt config ≠ EmptyString)
    then [Some (SystemMessage (ReactAgent.SystemPrompt config))]
    else historyBefore a sessionID in
  let asked := truncated (ReactAgent.MaxHistory config)
                 (start ++ [Some (UserMessage userMessage)]) in
  ∃ a',
    registry_inv a' ∧
    (∀ other, other ≠ sessionID →
       GetSessionHistory a' other = GetSessionHistory a other) ∧
    match Generate asked with
    | Ok response =>
        ReactAgent.Chat config Generate a sessionID userMessage = (a', Ok response) ∧
        GetSessionHistory a' sessionID = (Some (asked ++ [response]), true) ∧
        memoryStore a' =
          (λ store, (Write store sessionID (asked ++ [response])).1) <$> memoryStore a
    | Err err =>
        ReactAgent.Chat config Generate a sessionID userMessage =
          (a', Err (wrapError "agent generate failed" err)) ∧
        GetSessionHistory a' sessionID = (Some asked, true) ∧
        memoryStore a' = memoryStore a
    end.
Proof.
  intros Hinv Hmax Hlen start asked. unfold ReactAgent.Chat.
  destruct (GetOrCreateSession_histories a sessionID Hinv)
    as (a1 & session & evs & -> & Hinv1 & Hs1 & Hh1 & Hm1).
  assert (Hold : messagesOf a1 session = historyBefore a sessionID).
  { apply (messagesOf_histories a1 sessionID); [done|]. by rewrite Hh1, lookup_insert_eq. }
  rewrite Hold.
  (* the system prompt *)
  set (a2 := if decide (length (historyBefore a sessionID) = 0%nat ∧
                        ReactAgent.SystemPrompt config ≠ EmptyString)
             then appendMessage a1 session
                    (Some (SystemMessage (ReactAgent.SystemPrompt config)))
             else a1).
  assert (H2 : registry_inv a2 ∧ sessions a2 !! sessionID = Some session ∧
               histories a2 = <[sessionID := start]> (histories a) ∧
               memoryStore a2 = memoryStore a).
  { subst a2 start. case_decide as Hcase; [|done].
    destruct (exchange_append a1 sessionID session (historyBefore a sessionID)
                (Some (SystemMessage (ReactAgent.SystemPrompt config))) Hinv1 Hs1)
      as (Hinv2 & Hs2 & Hh2 & Hm2).
    { by rewrite Hh1, lookup_insert_eq. }
    split; [done|]. split; [done|]. split; [|congruence].
    rewrite Hh2, Hh1, insert_insert_eq.
    destruct Hcase as [Hempty _]. by destruct (historyBefore a sessionID). }
  destruct H2 as (Hinv2 & Hs2 & Hh2 & Hm2).
  (* the user message *)
  destruct (exchange_append a2 sessionID session start (Some (UserMessage userMessage))
              Hinv2 Hs2) as (Hinv3 & Hs3 & Hh3 & Hm3).
  { by rewrite Hh2, lookup_insert_eq. }
  set (a3 := appendMessage a2 session (Some (UserMessage userMessage))) in *.
  rewrite Hh2, insert_insert_eq in Hh3.
  assert (Hmsgs3 : messagesOf a3 session = start ++ [Some (UserMessage userMessage)]).
  { apply (messagesOf_histories a3 sessionID); [done|]. by rewrite Hh3, lookup_insert_eq. }
  rewrite Hmsgs3.
  (* the history limit *)
  rewrite limitHistory_truncated; [|done|].
  2:{ rewrite length_app. simpl. subst start. case_decide; simpl; lia. }
  fold asked.
  destruct (setMessages_histories a3 sessionID session asked Hinv3 Hs3)
    as (Hinv4 & Hs4 & Hh4 & Hm4).
  set (a4 := ReactAgent.setMessages a3 session asked) in *.
  rewrite Hh3, insert_insert_eq in Hh4.
  assert (Hmsgs4 : messagesOf a4 session = asked).
  { apply (messagesOf_histories a4 sessionID); [by rewrite Hs4|].
    by rewrite Hh4, lookup_insert_eq. }
  rewrite Hmsgs4.
  destruct (Generate asked) as [response|err].
  - destruct (exchange_append a4 sessionID session asked response Hinv4)
      as (Hinv5 & Hs5 & Hh5 & Hm5).
    { by rewrite Hs4. }
    { by rewrite Hh4, lookup_insert_eq. }
    set (a5 := appendMessage a4 session response) in *.
    rewrite Hh4, insert_insert_eq in Hh5.
    assert (Hmsgs5 : messagesOf a5 session = asked ++ [response]).
    { apply (messagesOf_histories a5 sessionID); [done|].
      by rewrite Hh5, lookup_insert_eq. }
    rewrite Hmsgs5.
    destruct (persistSession_histories a5 sessionID (asked ++ [response]) Hinv5)
      as (Hinv6 & Hs6 & Hh6 & Hm6).
    eexists. split; [exact Hinv6|]. rewrite Hh5 in Hh6.
    destruct (GetSessionHistory_insert a _ sessionID _ Hinv Hinv6 Hh6) as [Hget Hframe].
    split; [done|]. split; [reflexivity|]. split; [done|].
    rewrite Hm6. congruence.
  - exists a4. split; [done|].
    destruct (GetSessionHistory_insert a _ sessionID _ Hinv Hinv4 Hh4) as [Hget Hframe].
    split; [done|]. split; [reflexivity|]. split; [done|]. congruence.
Qed.

End ReactExchange.

Section StoreFacts.
Import Schema Memory Agent.

(** A sequence of writes, the oldest first. *)
Definition writeAll (writes : list (string * list MessagePtr)) (store : InMemoryStore)
  : InMemoryStore :=
  foldl (λ store w, (Write store w.1 w.2).1) store writes.

(** X24.  The in-memory store is a last-write-wins map: after any sequence
    of writes on a new store, a read returns, without an error, the list of
    the last write for that session id, and a nil slice when there was
    none. *)
Theorem InMemoryStore_last_write_wins (writes : list (string * list MessagePtr))
    (sessionID : string) :
  Read (writeAll writes NewInMemoryStore) sessionID =
  (snd <$> last (filter (λ w, w.1 = sessionID) writes), None).
Proof.
  unfold writeAll. induction writes as [|w writes IH] using rev_ind; [done|].
  rewrite foldl_app, filter_app. cbn [foldl].
  destruct (decide (w.1 = sessionID)) as [<-|Hne].
  - rewrite filter_cons_True by done. rewrite filter_nil, last_snoc. simpl fmap.
    apply InMemoryStore_read_written.
  - rewrite filter_cons_False by done. rewrite filter_nil, (right_id_L [] (++)).
    by rewrite InMemoryStore_Write_other.
Qed.

Section RedisBacked.

Variable gobEncode : list MessagePtr → result (list Byte.byte).
Variable gobDecode : list Byte.byte → result (option (list MessagePtr)).
Context `{RedisClient R}.

(** X25.  On the Redis store, for a codec whose decoder gives back the
    messages that were encoded (in a slice that may be nil when there is none,
    as gob leaves it for a length of zero) and a server that returns what was
    set, a write that reports no error is read back: the read of the same
    session returns no error and a slice that holds the messages written, in
    order, and a new session of an agent on this store starts from exactly
    these messages. *)
Theorem RedisStore_Write_Read (s s' : RedisStore R) (sessionID : string)
    (msgs : list MessagePtr) :
  (∀ msgs b, gobEncode msgs = Ok b →
     ∃ decoded, gobDecode b = Ok decoded ∧ default [] decoded = msgs) →
  (∀ (r r' : R) key b, Set_ r key b = (r', None) → Get r' key = redisBytes b) →
  RedisStore_Write gobEncode s sessionID msgs = (s', None) →
  (∃ slice, RedisStore_Read gobDecode s' sessionID = (slice, None) ∧
            default [] slice = msgs) ∧
  ∀ a : Agent (RedisStore R),
    sessions a !! sessionID = None →
    memoryStore a = Some s' →
    ∃ a' session evs,
      @GetOrCreateSession _ (RedisStore_Store gobEncode gobDecode) a sessionID =
        (a', session, evs) ∧
      heap a' !! session = Some {| ID := sessionID; Messages := msgs |} ∧
      sessions a' !! sessionID = Some session.
Proof.
  intros Hgob Hredis Hwrite.
  assert (Hread : ∃ slice, RedisStore_Read gobDecode s' sessionID = (slice, None) ∧
                           default [] slice = msgs).
  { revert Hwrite. unfold RedisStore_Write, RedisStore_Read.
    unfold EncodeMessages, DecodeMessages.
    destruct (gobEncode msgs) as [b|] eqn:He; [|done].
    destruct (Set_ (cli s) (prefix s +:+ sessionID) b) as [cli' [err|]] eqn:Hset; [done|].
    intros [= <-]. simpl.
    rewrite (Hredis _ _ _ _ Hset).
    destruct (Hgob _ _ He) as (decoded & -> & Hdecoded). by exists decoded. }
  split; [exact Hread|].
  destruct Hread as (slice & Hread & Hslice).
  intros a Hs Hstore. unfold GetOrCreateSession. rewrite Hs, Hstore.
  change (@Read _ (RedisStore_Store gobEncode gobDecode) s' sessionID)
    with (RedisStore_Read gobDecode s' sessionID).
  rewrite Hread.
  eexists _, _, _. split; [reflexivity|]. simpl. split.
  - rewrite lookup_app_r, Nat.sub_diag by lia. simpl. do 2 f_equal.
    rewrite <-Hslice. by destruct slice.
  - by rewrite lookup_insert_eq.
Qed.

(** A message list that gob cannot encode is not sent to the server: the
    write returns the error of the encoder and leaves the store as it was. *)
Lemma RedisStore_Write_encode_error (s : RedisStore R) (sessionID : string)
    (msgs : list MessagePtr) err :
  gobEncode msgs = Err err →
  RedisStore_Write gobEncode s sessionID msgs = (s, Some err).
Proof.
  intros He. unfold RedisStore_Write, EncodeMessages. by rewrite He.
Qed.

(** X26.  With the Redis store behind the agent, a session that is not in
    memory and whose read fails (the server fails, or the bytes do not decode)
    is created empty: the error of the store comes with a nil slice and is not
    returned to the caller. *)
Theorem GetOrCreateSession_redis_read_error (a : Agent (RedisStore R))
    (store : RedisStore R) (sessionID : string) err :
  sessions a !! sessionID = None →
  memoryStore a = Some store →
  (RedisStore_Read gobDecode store sessionID).2 = Some err →
  ∃ a' session evs,
    @GetOrCreateSession _ (RedisStore_Store gobEncode gobDecode) a sessionID =
      (a', session, evs) ∧
    heap a' !! session = Some {| ID := sessionID; Messages := [] |} ∧
    sessions a' !! sessionID = Some session.
Proof.
  intros Hs Hstore Herr. unfold GetOrCreateSession. rewrite Hs, Hstore.
  change (@Read _ (RedisStore_Store gobEncode gobDecode) store sessionID)
    with (RedisStore_Read gobDecode store sessionID).
  destruct (RedisStore_Read gobDecode store sessionID) as [msgs err'] eqn:Hread.
  simpl in Herr. subst err'.
  rewrite (RedisStore_Read_error gobDecode _ _ _ _ Hread).
  eexists _, _, _. split; [reflexivity|]. simpl. split.
  - by rewrite lookup_app_r, Nat.sub_diag by lia.
  - by rewrite lookup_insert_eq.
Qed.

End RedisBacked.

End StoreFacts.

(** * Concrete runs for the further properties *)

Section FurtherRuns.
Import Schema Summarization Memory Agent AgentRun.

Definition lowMiddleware : Middleware :=
  {| counter := defaultCounterToken; maxBefore := 5; maxRecent := 3;
     summarizer := λ older_messages, summaryModel [UserMessage older_messages] |}.

Definition userOnly : list MessagePtr :=
  [Some (UserMessage "hello there"); Some (UserMessage "general kenobi")].

(** A list with nil entries. *)
Definition withNil : list MessagePtr :=
  [None; Some (UserMessage "hello there"); None;
   Some (mkMessage Assistant "general kenobi" [] EmptyString ∅); None].

Lemma ProcessMessages_summarizer_only_above_witness :
  (∃ msgsToken, counter (smallMiddleware summaryModel) conversation = Ok msgsToken ∧
                length msgsToken = length conversation ∧
                sumTokens msgsToken > maxBefore (smallMiddleware summaryModel)) ∧
  (ProcessMessages (smallMiddleware summaryModel) conversation).1 =
    [CounterCall conversation; SummarizerInvoke "[assistant]
general kenobi

"].
Proof.
  apply (ProcessMessages_summarizer_only_above (smallMiddleware summaryModel) conversation).
  vm_compute. apply list_elem_of_further, list_elem_of_here.
Defined.

Lemma ProcessMessages_default_counter_witness :
  (ProcessMessages (smallMiddleware failingModel) conversation).2 = Ok conversation
  ∨ ∃ err, (ProcessMessages (smallMiddleware failingModel) conversation).2 =
           Err (wrapError "summarize failed" err).
Proof.
  apply (ProcessMessages_default_counter (smallMiddleware failingModel) conversation).
  reflexivity.
Defined.

Lemma splitMessages_drops_nil_witness :
  ∃ bs,
    splitMessages withNil [0; 3; 0; 5; 0] = Ok bs ∧
    msgs (systemBlock bs) ++ msgs (userBlock bs) ++ msgs (summaryBlock bs) ++
      concat (msgs <$> toolBlocks bs) =
    [Some (UserMessage "hello there");
     Some (mkMessage Assistant "general kenobi" [] EmptyString ∅)].
Proof.
  apply (splitMessages_drops_nil withNil [0; 3; 0; 5; 0]). simpl. lia.
Defined.

Lemma splitMessages_leading_blocks_witness :
  ∃ bs, splitMessages exchange [3; 5; 3; 8; 3; 2; 7] = Ok bs ∧
        Forall (λ p, ∃ m, p = Some m ∧ Role m = User) (msgs (userBlock bs)) ∧
        length (msgs (userBlock bs)) = 2%nat.
Proof.
  eexists. split; [vm_compute; reflexivity|]. split; [|reflexivity].
  eapply (proj1 (proj2 (splitMessages_leading_blocks exchange [3; 5; 3; 8; 3; 2; 7] _ _))).
  Unshelve. vm_compute. reflexivity.
Defined.

Lemma splitMessages_step_blocks_witness :
  ∃ bs, splitMessages exchange [3; 5; 3; 8; 3; 2; 7] = Ok bs ∧
        Forall stepBlock (toolBlocks bs) ∧ length (toolBlocks bs) = 2%nat.
Proof.
  eexists. split; [vm_compute; reflexivity|]. split; [|reflexivity].
  eapply (splitMessages_step_blocks exchange [3; 5; 3; 8; 3; 2; 7]).
  vm_compute. reflexivity.
Defined.

Lemma budgetSplit_within_budget_witness :
  ∃ st, budgetSplit 10 [mkBlock [] 3; mkBlock [] 20; mkBlock [] 5] = Ok st ∧
        sumBlocks (recentBlocks st) ≤ 10 ∧
        recentTokens st = sumBlocks (recentBlocks st).
Proof.
  apply (budgetSplit_within_budget 10 [mkBlock [] 3; mkBlock [] 20; mkBlock [] 5]).
  - lia.
  - repeat constructor; simpl; unfold Int64.max_int; lia.
Defined.

Lemma budgetSplit_all_fit_witness :
  budgetSplit 10 [mkBlock [] 3; mkBlock [] 2; mkBlock [] 5] =
  Ok (mkSplit [mkBlock [] 3; mkBlock [] 2; mkBlock [] 5] [] 10).
Proof.
  apply (budgetSplit_all_fit 10 [mkBlock [] 3; mkBlock [] 2; mkBlock [] 5]).
  - repeat constructor; simpl; lia.
  - vm_compute. discriminate.
  - vm_compute. discriminate.
Defined.

Lemma ProcessMessages_only_user_messages_witness :
  (ProcessMessages lowMiddleware userOnly).1 =
  [CounterCall userOnly; SummarizerInvoke EmptyString].
Proof.
  apply (ProcessMessages_only_user_messages lowMiddleware userOnly [3; 4]).
  - discriminate.
  - repeat constructor; by eexists.
  - reflexivity.
  - reflexivity.
  - reflexivity.
Defined.

End FurtherRuns.

Section ExchangeRuns.
Import Schema Memory Agent AgentRun.

Definition reply : Schema.Message := mkMessage Assistant "It is sunny." [] EmptyString ∅.

(** The events of a run: a failed event, a streamed answer in two chunks
    with a nil chunk in between, and the final message. *)
Definition replyEvents : list AgentEvent :=
  [ {| EventErr := Some (errorString "tool failed"); MessageOutput := None |};
    {| EventErr := None;
       MessageOutput := Some {| IsStreaming := true; Message := None;
         MessageStream := Some [Some (mkMessage Assistant "It is " [] EmptyString ∅);
                                None;
                                Some (mkMessage Assistant "sunny." [] EmptyString ∅)];
         GetMessage := (Some reply, None) |} |} ].

Lemma newAgent_registry_inv : registry_inv newAgent.
Proof. intros sessionID session Hs. simpl in Hs. by rewrite lookup_empty in Hs. Qed.

Lemma Chat_success_witness :
  ∃ a',
    Chat replyEvents newAgent "s1" "weather?" = (a', Ok (Some reply)) ∧
    GetSessionHistory a' "s1" =
      (Some [Some (UserMessage "weather?"); Some reply], true) ∧
    memoryStore a' =
      Some (Write NewInMemoryStore "s1" [Some (UserMessage "weather?"); Some reply]).1.
Proof.
  destruct (Chat_success replyEvents newAgent "s1" "weather?" reply
              newAgent_registry_inv eq_refl) as (a' & Hchat & _ & Hget & _ & Hstore).
  exists a'. split; [exact Hchat|]. split; [exact Hget|exact Hstore].
Defined.

Lemma Chat_no_response_witness :
  ∃ a',
    Chat [] newAgent "s1" "weather?" =
      (a', Err (errorString "no assistant response received")) ∧
    GetSessionHistory a' "s1" = (Some [Some (UserMessage "weather?")], true) ∧
    memoryStore a' = Some NewInMemoryStore.
Proof.
  destruct (Chat_no_response [] newAgent "s1" "weather?" newAgent_registry_inv eq_refl)
    as (a' & Hchat & _ & Hget & _ & Hstore).
  exists a'. split; [exact Hchat|]. split; [exact Hget|exact Hstore].
Defined.

Lemma ChatStream_persists_user_message_witness :
  ∃ a',
    ChatStream replyEvents newAgent "s1" "weather?" =
      (a', [mkMessage Assistant "It is " [] EmptyString ∅;
            mkMessage Assistant "sunny." [] EmptyString ∅]) ∧
    GetSessionHistory a' "s1" = (Some [Some (UserMessage "weather?")], true) ∧
    memoryStore a' = Some (Write NewInMemoryStore "s1" [Some (UserMessage "weather?")]).1.
Proof.
  destruct (ChatStream_persists_user_message replyEvents newAgent "s1" "weather?"
              newAgent_registry_inv) as (a' & Hchat & _ & Hget & _ & Hstore).
  exists a'. split; [exact Hchat|]. split; [exact Hget|exact Hstore].
Defined.

Lemma handleStreamResponse_history_witness :
  ∃ a' published,
    Api.handleStreamResponse "gpt-4o" "chatcmpl-1" 1700000000 replyEvents newAgent
      "s1" "weather?" = (a', published) ∧
    length published = 4%nat ∧
    GetSessionHistory a' "s1" =
      (Some [Some (UserMessage "weather?"); Some (Api.AssistantMessage "It is sunny.")],
       true) ∧
    memoryStore a' = Some (Write NewInMemoryStore "s1" [Some (UserMessage "weather?")]).1.
Proof.
  destruct (handleStreamResponse_history "gpt-4o" "chatcmpl-1" 1700000000 replyEvents
              newAgent "s1" "weather?" newAgent_registry_inv)
    as (a' & Hrun & Hget & _ & Hstore).
  exists a'. eexists. split; [exact Hrun|]. split; [reflexivity|].
  split; [exact Hget|exact Hstore].
Defined.

Lemma AppendAssistantMessage_appends_witness :
  let a := (GetOrCreateSession newAgent "s1").1.1 in
  GetSessionHistory (AppendAssistantMessage a "s1" (Some reply)) "s1" =
    (Some [Some reply], true).
Proof.
  intros a.
  assert (Hinv : registry_inv a).
  { destruct (GetOrCreateSession_histories newAgent "s1" newAgent_registry_inv)
      as (a1 & l & evs & Hcall & Hinv & _). subst a. by rewrite Hcall. }
  apply (proj1 (AppendAssistantMessage_appends a "s1" (Some reply) [] Hinv eq_refl)).
Defined.

Lemma reachable_registry_inv_witness :
  ∃ s, heap (Chat replyEvents newAgent "s1" "weather?").1 !! 0%nat = Some s ∧
       Agent.ID s = "s1".
Proof.
  apply (reachable_registry_inv (Chat replyEvents newAgent "s1" "weather?").1
           (reachable_Chat replyEvents newAgent "s1" "weather?" (reachable_new _))
           "s1" 0%nat).
  vm_compute. reflexivity.
Defined.

Lemma Chat_ClearSession_reload_witness :
  let cleared := ClearSession (Chat replyEvents newAgent "s1" "weather?").1 "s1" in
  GetSessionHistory cleared "s1" = (None, false) ∧
  GetSessionHistory (GetOrCreateSession cleared "s1").1.1 "s1" =
    (Some [Some (UserMessage "weather?"); Some reply], true).
Proof.
  apply (Chat_ClearSession_reload replyEvents newAgent NewInMemoryStore "s1" "weather?"
           reply newAgent_registry_inv eq_refl eq_refl).
Defined.

Lemma BeforeChatModel_keeps_last_witness :
  BeforeChatModel 1 exchange = Ok (drop 5 exchange) ∧
  length (drop 5 exchange) = 2%nat.
Proof.
  apply (BeforeChatModel_keeps_last 1 exchange); [lia|]. simpl. lia.
Defined.

Lemma limitHistory_keeps_first_witness :
  ∃ kept,
    ReactAgent.limitHistory 1 exchange = Ok kept ∧
    kept = take 1 exchange ++ drop 5 exchange ∧
    head kept = head exchange ∧
    (0 < 1 → Z.of_nat (length kept) ≤ 2 * 1 + 1) ∧
    (1 ≤ 0 → kept = exchange).
Proof.
  apply (limitHistory_keeps_first 1 exchange); [lia|]. simpl. lia.
Defined.

Lemma ReactAgent_Chat_exchange_witness :
  ∃ a',
    ReactAgent.Chat (ReactAgent.mkConfig "be brief" 1) (λ _, Ok (Some reply))
      newAgent "s1" "weather?" = (a', Ok (Some reply)) ∧
    GetSessionHistory a' "s1" =
      (Some [Some (SystemMessage "be brief"); Some (UserMessage "weather?"); Some reply],
       true).
Proof.
  destruct (ReactAgent_Chat_exchange (ReactAgent.mkConfig "be brief" 1)
              (λ _, Ok (Some reply)) newAgent "s1" "weather?" newAgent_registry_inv)
    as (a' & _ & _ & Hchat & Hget & _).
  - simpl. lia.
  - vm_compute. reflexivity.
  - exists a'. split; [exact Hchat|exact Hget].
Defined.

End ExchangeRuns.

Section RedisRuns.
Import Schema Memory Agent.

(** A server that keeps what is set, and one that is down. *)
Definition mapServer : RedisClient (gmap string (list Byte.byte)) :=
  {| Set_ := λ r key b, (<[key := b]> r, None);
     Get := λ r key, match r !! key with
                     | Some b => redisBytes b
                     | None => redisNil
                     end |}.
Definition downServer : RedisClient unit :=
  {| Set_ := λ r _ _, (r, Some (errorString "connection refused"));
     Get := λ _ _, redisErr (errorString "connection refused") |}.

#[local] Instance FunctionCall_eq_dec : EqDecision FunctionCall.
Proof. solve_decision. Defined.
#[local] Instance ToolCall_eq_dec : EqDecision ToolCall.
Proof. solve_decision. Defined.
#[local] Instance any_eq_dec : EqDecision any.
Proof. solve_decision. Defined.
#[local] Instance Message_eq_dec : EqDecision Message.
Proof. solve_decision. Defined.

(** A codec of two lists: the empty one, which it decodes to a nil slice as
    gob does, and [exchange]. *)
Definition encodeKnown (msgs : list MessagePtr) : result (list Byte.byte) :=
  if decide (msgs = []) then Ok []
  else if decide (msgs = exchange) then Ok [Byte.x01]
  else Err (errorString "unsupported").
Definition decodeKnown (b : list Byte.byte) : result (option (list MessagePtr)) :=
  match b with
  | [] => Ok None
  | _ :: _ => Ok (Some exchange)
  end.

Lemma decodeKnown_encodeKnown (msgs : list MessagePtr) b :
  encodeKnown msgs = Ok b →
  ∃ decoded, decodeKnown b = Ok decoded ∧ default [] decoded = msgs.
Proof.
  unfold encodeKnown. destruct (decide (msgs = [])) as [->|_].
  { intros [= <-]. by exists None. }
  destruct (decide (msgs = exchange)) as [->|_]; [|done].
  intros [= <-]. by exists (Some exchange).
Qed.

Lemma RedisStore_Write_Read_witness :
  let written :=
    (@RedisStore_Write encodeKnown _ mapServer (NewRedisStore ∅ EmptyString) "s1" exchange).1 in
  (∃ slice, @RedisStore_Read decodeKnown _ mapServer written "s1" = (slice, None) ∧
            default [] slice = exchange) ∧
  ∃ a' session evs,
    @GetOrCreateSession _ (@RedisStore_Store encodeKnown decodeKnown _ mapServer)
      {| sessions := ∅; heap := []; memoryStore := Some written |} "s1" =
      (a', session, evs) ∧
    heap a' !! session = Some {| ID := "s1"; Messages := exchange |} ∧
    sessions a' !! "s1" = Some session.
Proof.
  intros written.
  destruct (@RedisStore_Write_Read encodeKnown decodeKnown _ mapServer
              (NewRedisStore ∅ EmptyString) written "s1" exchange) as [Hread Hload].
  - exact decodeKnown_encodeKnown.
  - intros r r' key b [= <-]. simpl. by rewrite lookup_insert_eq.
  - reflexivity.
  - split; [exact Hread|]. apply Hload; reflexivity.
Defined.

Lemma GetOrCreateSession_redis_read_error_witness :
  ∃ a' session evs,
    @GetOrCreateSession _ (@RedisStore_Store encodeKnown decodeKnown _ downServer)
      {| sessions := ∅; heap := []; memoryStore := Some (NewRedisStore () EmptyString) |}
      "s1" = (a', session, evs) ∧
    heap a' !! session = Some {| ID := "s1"; Messages := [] |} ∧
    sessions a' !! "s1" = Some session.
Proof.
  apply (@GetOrCreateSession_redis_read_error encodeKnown decodeKnown _ downServer
           _ (NewRedisStore () EmptyString) "s1" (errorString "connection refused"));
    reflexivity.
Defined.

End RedisRuns.
